(* ===== verification/_CoqProject ===== *)
-Q . S2P
Prelude.v
GoTypes.v
Registry.v
RegistryInv.v
Spec.v
Contract.v
Trace.v
Concurrency.v
RegistryTest.v
