(* ===== verification/Prelude.v ===== *)
(** * A verification library for lukejoshuapark/hydration

    The repository is one Go package, [hydration], with one source file
    ([src/Registry.go]) and its test ([src/Registry_test.go]).  The package
    is a type registry: a [Registry] owns a Go map
    [typeMapping map[string]func() any] from type keys to zero-argument
    factories; [RegisterIntoWithKey] stores a closure that returns
    [Hydrate[T]()] (the zero value of [T]) under a key,
    [ResolveFromWithKey] looks the key up, calls the closure and
    type-asserts the result to [T], and [KnowsTypeKeyIn] reports whether
    the key is present.  Nine further functions ([Register],
    [RegisterWithKey], [RegisterInto], [Resolve], [ResolveWithKey],
    [ResolveFrom], [Knows], [KnowsTypeKey], [KnowsIn]) fill in the registry
    with the package variable [DefaultRegistry] and the key with
    [DerivedTypeKey[T]()], which formats [reflect.TypeOf] of the zero value
    of [T] with [fmt.Sprintf("%v", ...)].

    ** Files, in dependency order

    - [Prelude] (this file): the Go execution monad [GoM] (state passing
      with Go panics that keep the state reached, as Go's unwinding does)
      with stdpp's [x ← c; k] notation, the judgements
      [s ⊢ c ⇓ a ⊣ s'] and [s ⊢ c ↯ e ⊣ s'] in [go_scope], Go's [recover]
      as [go_recover], the monad laws, simulations of a computation by an
      abstract one ([go_sim]) and their composition along [≫=] and
      [mapM], the allocation predicate [below]
      shared by the two heaps of the model, the [go_db]/[go_rw] hint
      databases and the [go_unfold] tactic.
    - [GoTypes]: the part of Go the package relies on: types ([gotype]:
      predeclared boolean, integer, floating-point, complex and string
      types, pointers, slices, arrays, maps, channels with their
      direction, function types, struct literals, interfaces and defined
      types with their package path and name and method sets), values,
      the zero value [zero_value] ([var t T]), the conversion [to_any] to
      [any], [reflect.TypeOf] ([TypeOf]), the [%v] formatting of a
      [reflect.Type] ([Sprintf_v_type], [type_string], following the
      names Go's compiler gives types, [chan (<-chan int)] and
      [func(int, ...string) (bool, error)] included), and the type
      assertion [type_assert] ([x.(T)]); [runtime_error] lists the panics.
    - [Registry]: [src/Registry.go].  The memory [World] has a heap of
      [Registry] structs, a heap of Go maps (a [Registry] holds a map
      reference, as in Go), the allocation counter and the package
      variable [DefaultRegistry]; a pointer is [option nat].  [NewRegistry],
      [package_init]/[init_world] ([var DefaultRegistry = NewRegistry()]),
      [Hydrate], [DerivedTypeKey] and the twelve API functions
      [Register], [RegisterWithKey], [RegisterInto], [RegisterIntoWithKey],
      [Resolve], [ResolveWithKey], [ResolveFrom], [ResolveFromWithKey],
      [Knows], [KnowsTypeKey], [KnowsIn], [KnowsTypeKeyIn] are
      definitions of the same names with the bodies of the Go functions.
      The stored closure [func() any { return Hydrate[T]() }] is
      defunctionalised as [HydrateClosure T].
    - [RegistryInv]: the steps of client programs ([client_step]:
      [NewRegistry], registration, assigning [DefaultRegistry],
      [new(Registry)], copying a [Registry] value), reachability from
      [init_world], and the invariants [wf] and [unaliased].
    - [Spec]: the contract of one registry ([Spec.put], [Spec.known],
      [Spec.get] on a map from keys to types), the abstraction [abs], the
      refinement of each primitive ([abs_register], [abs_knows],
      [abs_resolve]) and the refinement theorem [registry_refines].
    - [Contract]: the contract as an interface between the package and
      its clients, the class [RegistryContract] with its laws; client
      lemmas proved against the class ([rc_register_roundtrip],
      [rc_resolve_unknown]) and the instance [go_registry_contract] that
      discharges the laws for the model of [Registry.go].
    - [Trace]: client programs as sequences of statements ([op]:
      [NewRegistry()], [new(Registry)], assignment of [DefaultRegistry]
      and the three operations in their four call shapes), with pointer
      variables bound by the allocations, run by [run] in the Go model;
      the abstract package [pkg] (registries by address, each an abstract
      registry or a nil map, and the default one), run by [spec_run]; the
      abstraction [absp] and the simulation of each statement
      ([sim_new], [sim_register], [assign_default_sim], ...).
    - [Concurrency]: goroutines whose calls are serialised by a lock, as
      the design requires of concurrent callers: schedules of two call
      sequences ([schedule]), registration sequences ([run_calls]), and
      the generic argument that
      updates commuting under distinct keys may be reordered
      ([schedule_apply_all]).
    - [RegistryTest]: [src/Registry_test.go]: [dummyType], [testCase],
      [createTestCase], the dispatchers [register], [check], [resolve],
      the subtest body and the loop of [TestHydration].  Its proofs reach
      the package only through the client lemmas of [Contract].

    ** What is proved

    - Functional behaviour of each primitive on every branch
      ([RegisterIntoWithKey_spec], [KnowsTypeKeyIn_spec],
      [ResolveFromWithKey_spec]) and the composition of the convenience
      shapes ([register_call_prim] and the like).
    - Round trip register/knows/resolve over all shapes
      ([register_knows_resolve_roundtrip]), last write wins
      ([register_last_write_wins]), registrations under different keys
      commute ([register_commute]), unknown keys panic
      ([resolve_unregistered_panics]), queries are read-only
      ([resolve_knows_read_only]), resolution at another type
      ([resolve_after_register]).
    - Refinement of the abstract registry ([Spec.registry_refines]), and
      of whole client programs: every sequence of calls, allocations and
      assignments of [DefaultRegistry] included, has the outcome of the
      abstract package of independent registries ([run_refines]).
    - Invariants over reachable memories: every reachable memory is well
      formed (the helper [reachable_wf_aux]), registrations are never
      removed ([registrations_persist]), isolation of
      registries ([new_registry_isolated], [reachable_register_isolated]),
      which fails for copies of a [Registry] value
      ([copy_registry_shares_map]), and the liveness property that from
      every reachable memory the default registry can be made to know any
      key and resolve it at any non-interface type
      ([default_eventually_resolves]).
    - Concurrency under the lock the design requires: registrations of
      two goroutines under disjoint keys reach the same memory under every
      schedule ([schedule_independent]), under a shared key the schedule
      decides the survivor, for any two different types
      ([same_key_schedule_dependent]).
    - Behaviours the documentation does not state: the derived key of an
      interface type is ["<nil>"] ([DerivedTypeKey_interface_nil]), an
      interface type registers but never resolves
      ([interface_register_resolve_panics]), types of two packages with
      the same name share a key ([derived_key_collision]), a zero-value
      [Registry] panics on registration ([zero_registry_register_panics]),
      nil registries panic ([nil_registry_panics]).
    - The test: its 64 subtests all pass from any memory whose default
      registry has a map ([TestHydration_passes]), [createTestCase]
      enumerates the 64 shape combinations ([createTestCase_bijective]),
      leaves the default registry with [dummyType] added once
      ([TestHydration_registers]), reads exactly the six low bits of its
      argument
      ([createTestCase_low_bits]), and the loop terminates after 64
      iterations ([test_loop_fuel]).

    ** Bounds and fuel

    The only loop is [TestHydration]'s [for i := 0; i < 1<<6; i++];
    [test_loop] takes fuel, [TestHydration] gives it 64, exactly the
    number of iterations, and [test_loop_fuel] shows that any larger fuel
    gives the same run.  Go's [int] in the test never exceeds 64, so its
    width plays no role; [Z.land] models [i&k], and
    [createTestCase_low_bits] shows it depends on [i mod 64] only, for
    every integer [i], negative ones included.  The package does no
    arithmetic, and creates integers only as zero values.

    ** Not modelled

    Unsynchronised concurrency: the code has no synchronisation and the
    design calls concurrent registration a data race; Go gives a racy
    program no semantics (a concurrent map write may abort it), so only
    calls serialised by a lock are modelled ([Concurrency]), at the
    granularity of whole calls.  Also not modelled: generic instantiations
    (the names [reflect] gives them are spelled by the compiler, with
    type arguments qualified by import path, and the language
    specification does not fix them), embedded fields and struct tags in
    [reflect] names, [unsafe.Pointer], and the behaviour of the external
    assertion library beyond pass/fail.  Method sets ignore promotion
    through embedded fields (with its depth and ambiguity rules) and
    compare method signatures as strings.  The programs of [Trace] leave
    out copies of [Registry] values, under which the registries are not
    independent ([copy_registry_shares_map]).

    ** Plan for later work

    Nothing more of [src/] is left to model: every function and the test
    are definitions of the development.  What remains are the Go features
    listed above, which matter only for the types clients register. *)

From stdpp Require Export base strings list gmap.

Declare Scope go_scope.
Delimit Scope go_scope with go.

(** ** The Go execution monad *)

(** A Go computation either returns a value or panics.  A panic unwinds
    the stack but keeps every write already done, so both outcomes carry
    the state reached. *)
Inductive outcome (E S A : Type) : Type :=
| Ok (a : A) (s : S)
| Panic (e : E) (s : S).
Arguments Ok {E S A} a s.
Arguments Panic {E S A} e s.

Definition GoM (E S A : Type) : Type := S -> outcome E S A.

#[export] Instance GoM_ret {E S} : MRet (GoM E S) := fun A a s => Ok a s.
#[export] Instance GoM_bind {E S} : MBind (GoM E S) :=
  fun A B k c s =>
    match c s with
    | Ok a s' => k a s'
    | Panic e s' => Panic e s'
    end.

Definition go_gets {E S A} (f : S -> A) : GoM E S A := fun s => Ok (f s) s.
Definition go_modify {E S} (f : S -> S) : GoM E S unit := fun s => Ok tt (f s).
Definition go_panic {E S A} (e : E) : GoM E S A := fun s => Panic e s.

(** A deferred [recover()]: a panic of [c] becomes a value. *)
Definition go_recover {E S A} (c : GoM E S A) : GoM E S (E + A) :=
  fun s =>
    match c s with
    | Ok a s' => Ok (inr a) s'
    | Panic e s' => Ok (inl e) s'
    end.

Notation "s ⊢ c ⇓ a ⊣ s'" := (c s = Ok a s')
  (at level 70, c at next level, a at next level) : go_scope.
Notation "s ⊢ c ↯ e ⊣ s'" := (c s = Panic e s')
  (at level 70, c at next level, e at next level) : go_scope.

Open Scope go_scope.

(** The state a computation ends in, returned or panicked, and its result. *)
Definition final_state {E S A} (o : outcome E S A) : S :=
  match o with Ok _ s => s | Panic _ s => s end.

Definition result_of {E S A} (o : outcome E S A) : E + A :=
  match o with Ok a _ => inr a | Panic e _ => inl e end.

(** The same outcome, its state seen through [f]. *)
Definition outcome_map {E S S' A} (f : S -> S') (o : outcome E S A) : outcome E S' A :=
  match o with Ok a s => Ok a (f s) | Panic e s => Panic e (f s) end.

Ltac go_unfold :=
  cbv beta delta [mbind mret GoM_bind GoM_ret go_gets go_modify go_panic go_recover] iota.

Section monad_laws.
Context {E S : Type}.

Lemma go_bind_Ok {A B} (c : GoM E S A) (k : A -> GoM E S B) s a s' :
  s ⊢ c ⇓ a ⊣ s' -> (c ≫= k) s = k a s'.
Proof. intros H. go_unfold. by rewrite H. Qed.

Lemma go_bind_Panic {A B} (c : GoM E S A) (k : A -> GoM E S B) s e s' :
  s ⊢ c ↯ e ⊣ s' -> s ⊢ (c ≫= k) ↯ e ⊣ s'.
Proof. intros H. go_unfold. by rewrite H. Qed.

Lemma go_bind_Ok_inv {A B} (c : GoM E S A) (k : A -> GoM E S B) s b s'' :
  s ⊢ (c ≫= k) ⇓ b ⊣ s'' -> exists a s', s ⊢ c ⇓ a ⊣ s' /\ s' ⊢ k a ⇓ b ⊣ s''.
Proof. go_unfold. destruct (c s); eauto; discriminate. Qed.

Lemma go_bind_ext {A B} (c : GoM E S A) (k1 k2 : A -> GoM E S B) s :
  (forall a s', k1 a s' = k2 a s') -> (c ≫= k1) s = (c ≫= k2) s.
Proof. intros H. go_unfold. by destruct (c s). Qed.

Lemma go_ret_bind {A B} (a : A) (k : A -> GoM E S B) s :
  (mret a ≫= k) s = k a s.
Proof. reflexivity. Qed.

Lemma go_bind_ret {A} (c : GoM E S A) s : (c ≫= mret) s = c s.
Proof. go_unfold. by destruct (c s). Qed.

Lemma go_bind_assoc {A B C} (c : GoM E S A) (f : A -> GoM E S B)
      (g : B -> GoM E S C) s :
  ((c ≫= f) ≫= g) s = (c ≫= (fun a => f a ≫= g)) s.
Proof. go_unfold. by destruct (c s). Qed.

Lemma go_recover_Ok {A} (c : GoM E S A) s a s' :
  s ⊢ c ⇓ a ⊣ s' -> s ⊢ go_recover c ⇓ inr a ⊣ s'.
Proof. intros H. go_unfold. by rewrite H. Qed.

Lemma go_recover_Panic {A} (c : GoM E S A) s e s' :
  s ⊢ c ↯ e ⊣ s' -> s ⊢ go_recover c ⇓ inl e ⊣ s'.
Proof. intros H. go_unfold. by rewrite H. Qed.
End monad_laws.

(** ** Simulation of a computation by an abstract one

    [go_sim f I c d]: started in a state [s] satisfying the invariant
    [I], the concrete computation [c] has the outcome of the abstract
    computation [d] started in [f s] (same result or same panic, final
    state seen through [f]), and keeps [I].  Simulations compose along
    [≫=] and [mapM], so a run of a list of operations is simulated
    when each operation is. *)
Section simulation.
Context {E S S' : Type} (f : S -> S') (I : S -> Prop).

Definition go_sim {A} (c : GoM E S A) (d : GoM E S' A) : Prop :=
  forall s, I s -> outcome_map f (c s) = d (f s) /\ I (final_state (c s)).

Lemma go_sim_ret {A} (a : A) : go_sim (mret a) (mret a).
Proof. intros s Hs. done. Qed.

Lemma go_sim_bind {A B} (c : GoM E S A) (d : GoM E S' A)
      (k : A -> GoM E S B) (k' : A -> GoM E S' B) :
  go_sim c d -> (forall a, go_sim (k a) (k' a)) -> go_sim (c ≫= k) (d ≫= k').
Proof.
  intros Hc Hk s Hs. destruct (Hc s Hs) as [Ho HI]. go_unfold. rewrite <- Ho.
  destruct (c s) as [a s'|e s']; simpl in *; [exact (Hk a s' HI)|done].
Qed.

Lemma go_sim_mapM {A B} (g : A -> GoM E S B) (h : A -> GoM E S' B) (l : list A) :
  (forall x, go_sim (g x) (h x)) -> go_sim (mapM g l) (mapM h l).
Proof.
  intros Hgh. induction l as [|x l IH]; simpl; [apply go_sim_ret|].
  apply go_sim_bind; [done|]. intros y. apply go_sim_bind; [done|].
  intros ys. apply go_sim_ret.
Qed.
End simulation.

(** ** Heaps and allocation

    Go objects the model allocates ([Registry] structs and Go maps) live in
    heaps [gmap nat A]; a counter gives the next free address.  [below m n]
    says that every allocated address of [m] is smaller than [n]. *)

Definition below {A} (m : gmap nat A) (n : nat) : Prop :=
  forall k, is_Some (m !! k) -> k < n.

Section below.
Context {A : Type}.
Implicit Types (m : gmap nat A).

Lemma below_fresh m n : below m n -> m !! n = None.
Proof.
  intros Hb. destruct (m !! n) eqn:E; [|done].
  specialize (Hb n ltac:(by eexists)). lia.
Qed.

Lemma below_insert_fresh m n x : below m n -> below (<[n:=x]> m) (S n).
Proof.
  intros Hb k [v Hk]. destruct (decide (k = n)) as [->|Hne]; [lia|].
  rewrite lookup_insert_ne in Hk by congruence.
  specialize (Hb k ltac:(by eexists)). lia.
Qed.

Lemma below_insert_old m n k x : below m n -> is_Some (m !! k) -> below (<[k:=x]> m) n.
Proof.
  intros Hb Hk k' [v Hk']. destruct (decide (k' = k)) as [->|Hne]; [by apply Hb|].
  rewrite lookup_insert_ne in Hk' by congruence. apply Hb. by eexists.
Qed.

Lemma below_mono m n n' : below m n -> n <= n' -> below m n'.
Proof. intros Hb Hle k Hk. specialize (Hb k Hk). lia. Qed.

Lemma below_empty n : below (∅ : gmap nat A) n.
Proof. intros k [v Hk]. by rewrite lookup_empty in Hk. Qed.
End below.

Create HintDb go_db.
Create Rewrite HintDb go_rw.
#[export] Hint Resolve below_fresh below_insert_fresh below_insert_old below_empty : go_db.
#[export] Hint Resolve go_bind_Ok go_bind_Panic go_recover_Ok go_recover_Panic : go_db.
