(* ===== verification/GoTypes.v ===== *)
(** * The part of Go that the hydration package relies on

    [Registry.go] is generic over a type parameter [T] and uses four
    features of the language on it: the zero value [var t T] (in
    [Hydrate]), the implicit conversion of a [T] to [any] (in the factory
    closure and in the argument of [reflect.TypeOf]), [reflect.TypeOf]
    followed by [fmt.Sprintf("%v", ...)] (in [DerivedTypeKey]) and the
    type assertion [x.(T)] (in [ResolveFromWithKey]).  This file models
    Go types as data ([gotype]), Go values ([value]), and those four
    features as functions over them, following the Go specification and
    the documented behaviour of [reflect.Type.String].

    Floating-point and complex values are kept as their IEEE 754 bit
    patterns (the zero value is the all-zero pattern, [+0.0]); channels
    and functions have only their nil values here, which is all
    [var t T] can produce.

    A defined type is compared by all its fields; Go identifies it by
    its package path and name alone, so the development never uses two
    [TNamed] values with the same path and name.

    Not modelled: generic instantiations (their [reflect] names), embedded
    struct fields, struct tags and [unsafe.Pointer]; method signatures are
    kept as strings. *)

From S2P Require Import Prelude.
From stdpp Require Import pretty sorting.

Scheme All for prod.
Scheme All for list.
Scheme All for option.

(** ** Types *)

(** The predeclared integer, boolean and string types. *)
Inductive basic :=
| KBool | KInt | KInt8 | KInt16 | KInt32 | KInt64
| KUint | KUint8 | KUint16 | KUint32 | KUint64 | KUintptr
| KFloat32 | KFloat64 | KComplex64 | KComplex128 | KString.

#[export] Instance basic_eq_dec : EqDecision basic.
Proof. solve_decision. Defined.

Definition basic_name (k : basic) : string :=
  match k with
  | KBool => "bool" | KInt => "int" | KInt8 => "int8" | KInt16 => "int16"
  | KInt32 => "int32" | KInt64 => "int64" | KUint => "uint" | KUint8 => "uint8"
  | KUint16 => "uint16" | KUint32 => "uint32" | KUint64 => "uint64"
  | KUintptr => "uintptr" | KFloat32 => "float32" | KFloat64 => "float64"
  | KComplex64 => "complex64" | KComplex128 => "complex128" | KString => "string"
  end.

(** The direction of a channel type: [chan], [chan<-] or [<-chan]. *)
Inductive chan_dir := BothDir | SendDir | RecvDir.

#[export] Instance chan_dir_eq_dec : EqDecision chan_dir.
Proof. solve_decision. Defined.

(** A method is its name and its signature, e.g. [("Read", "([]uint8) (int, error)")]. *)
Definition method : Type := string * string.

(** A Go type.  A defined (named) type [TNamed] records the import path
    and the package name of its package, its name, its underlying type,
    the methods declared with a value receiver and those declared with a
    pointer receiver.  Predeclared named types outside any package (such
    as [error]) have an empty package name. *)
Inductive gotype : Type :=
| TBasic (k : basic)
| TPointer (elem : gotype)
| TSlice (elem : gotype)
| TArray (len : N) (elem : gotype)
| TMap (key elem : gotype)
| TChan (dir : chan_dir) (elem : gotype)
| TFunc (params results : list gotype) (variadic : bool)
| TStruct (fields : list (string * gotype))
| TInterface (methods : list method)
| TNamed (pkgpath pkgname name : string) (underlying : gotype)
         (vmethods pmethods : list method).

Lemma gotype_fields_eq_dec (fs : list (string * gotype)) :
  list_all _ (prod_all string (fun _ => unit) gotype
                (fun t => forall t', Decision (t = t'))) fs ->
  forall fs', Decision (fs = fs').
Proof.
  induction 1 as [|[n t] Ht fs _ IH]; intros [|[n' t'] fs'];
    try (right; discriminate); try (left; reflexivity).
  inversion Ht as [? _ ? Hd]; subst.
  destruct (decide (n = n')) as [<-|Hn]; [|right; congruence].
  destruct (Hd t') as [<-|Ht']; [|right; congruence].
  destruct (IH fs') as [<-|Hf]; [left; reflexivity | right; congruence].
Defined.

Lemma gotype_list_eq_dec (ts : list gotype) :
  list_all _ (fun t => forall t', Decision (t = t')) ts -> forall ts', Decision (ts = ts').
Proof.
  induction 1 as [|t Ht ts _ IH]; intros [|t' ts'];
    try (right; discriminate); try (left; reflexivity).
  destruct (Ht t') as [<-|]; [|right; congruence].
  destruct (IH ts') as [<-|]; [left; reflexivity | right; congruence].
Defined.

#[export] Instance gotype_eq_dec : EqDecision gotype.
Proof.
  intros x.
  induction x as [k|e IH|e IH|n e IH|k IHk v IHv|d e IH|ps IHps rs IHrs va|fs IHfs|ms
                  |p pk nm u IH vm pm]
    using gotype_rect; intros [];
    try (right; discriminate); try (left; reflexivity).
  - destruct (decide (k = k0)) as [<-|]; [left; done | right; congruence].
  - destruct (IH elem) as [<-|]; [left; done | right; congruence].
  - destruct (IH elem) as [<-|]; [left; done | right; congruence].
  - destruct (decide (n = len)) as [<-|]; [|right; congruence].
    destruct (IH elem) as [<-|]; [left; done | right; congruence].
  - destruct (IHk key) as [<-|]; [|right; congruence].
    destruct (IHv elem) as [<-|]; [left; done | right; congruence].
  - destruct (decide (d = dir)) as [<-|]; [|right; congruence].
    destruct (IH elem) as [<-|]; [left; done | right; congruence].
  - destruct (gotype_list_eq_dec ps IHps params) as [<-|]; [|right; congruence].
    destruct (gotype_list_eq_dec rs IHrs results) as [<-|]; [|right; congruence].
    destruct (decide (va = variadic)) as [<-|]; [left; done | right; congruence].
  - destruct (gotype_fields_eq_dec fs IHfs fields) as [<-|]; [left; done | right; congruence].
  - destruct (decide (ms = methods)) as [<-|]; [left; done | right; congruence].
  - destruct (decide (p = pkgpath)), (decide (pk = pkgname)), (decide (nm = name)),
      (IH underlying), (decide (vm = vmethods)), (decide (pm = pmethods));
      subst; try (right; congruence). left; done.
Defined.

(** The underlying type: a defined type stands for its underlying type. *)
Fixpoint underlying (t : gotype) : gotype :=
  match t with
  | TNamed _ _ _ u _ _ => underlying u
  | _ => t
  end.

Definition is_interface (t : gotype) : bool :=
  match underlying t with TInterface _ => true | _ => false end.

(** ** [reflect.Type.String]

    The string [reflect] prints for a type: a defined type is qualified
    by its package {i name} (not its import path), composite types are
    spelled as in Go source. *)
Definition method_string (m : method) : string := m.1 +:+ m.2.

(** Go spells the methods of an interface type in the order of their
    names (byte-wise). *)
Definition method_le (m1 m2 : method) : Prop := String.le m1.1 m2.1.

#[export] Instance method_le_dec : RelDecision method_le.
Proof. intros m1 m2. unfold method_le. apply _. Defined.

Fixpoint type_string (t : gotype) : string :=
  match t with
  | TBasic k => basic_name k
  | TPointer e => "*" +:+ type_string e
  | TSlice e => "[]" +:+ type_string e
  | TArray n e => "[" +:+ pretty n +:+ "]" +:+ type_string e
  | TMap k e => "map[" +:+ type_string k +:+ "]" +:+ type_string e
  | TChan BothDir (TChan RecvDir e) => "chan (<-chan " +:+ type_string e +:+ ")"
  | TChan d e =>
      match d with BothDir => "chan " | SendDir => "chan<- " | RecvDir => "<-chan " end
      +:+ type_string e
  | TFunc ps rs va =>
      let fix params (ps : list gotype) : string :=
        match ps with
        | [] => ""
        | [TSlice e] => (if va then "..." +:+ type_string e else "[]" +:+ type_string e)
        | [t] => type_string t
        | t :: r => type_string t +:+ ", " +:+ params r
        end in
      let fix results (rs : list gotype) : string :=
        match rs with
        | [] => ""
        | [t] => type_string t
        | t :: r => type_string t +:+ ", " +:+ results r
        end in
      "func(" +:+ params ps +:+ ")" +:+
      match rs with
      | [] => ""
      | [_] => " " +:+ results rs
      | _ => " (" +:+ results rs +:+ ")"
      end
  | TStruct [] => "struct {}"
  | TStruct fs =>
      "struct { " +:+
      (fix go (fs : list (string * gotype)) : string :=
         match fs with
         | [] => ""
         | [(n, ft)] => n +:+ " " +:+ type_string ft
         | (n, ft) :: r => n +:+ " " +:+ type_string ft +:+ "; " +:+ go r
         end) fs +:+ " }"
  | TInterface [] => "interface {}"
  | TInterface ms =>
      "interface { " +:+ String.concat "; " (map method_string (merge_sort method_le ms)) +:+ " }"
  | TNamed _ pkg name _ _ _ => if decide (pkg = "") then name else pkg +:+ "." +:+ name
  end.

(** ** Values *)

(** The values the package creates: integers, floating-point and complex
    numbers (as the bit patterns of their parts), booleans, strings, the
    nil of pointer, slice, map, channel and function types, arrays,
    structs, and interface values, which are nil or hold a dynamic type
    and value. *)
Inductive value :=
| VBool (b : bool)
| VInt (z : Z)
| VFloat (bits : Z)
| VComplex (re im : Z)
| VString (s : string)
| VNil
| VArray (elems : list value)
| VStruct (fields : list value)
| VIface (dyn : option (gotype * value)).

(** A value of type [any]: [None] is the nil interface. *)
Definition any_value : Type := option (gotype * value).

(** [var t T]: the zero value of [T]. *)
Fixpoint zero_value (t : gotype) : value :=
  match t with
  | TBasic KBool => VBool false
  | TBasic KString => VString ""
  | TBasic (KFloat32 | KFloat64) => VFloat 0
  | TBasic (KComplex64 | KComplex128) => VComplex 0 0
  | TBasic _ => VInt 0
  | TPointer _ | TSlice _ | TMap _ _ | TChan _ _ | TFunc _ _ _ => VNil
  | TArray n e => VArray (replicate (N.to_nat n) (zero_value e))
  | TStruct fs => VStruct (map (fun '(_, ft) => zero_value ft) fs)
  | TInterface _ => VIface None
  | TNamed _ _ _ u _ _ => zero_value u
  end.

(** The implicit conversion of a value of type [t] to [any]: a
    non-interface value is boxed with its type; an interface value passes
    its dynamic content through (a nil interface stays nil). *)
Definition to_any (t : gotype) (v : value) : any_value :=
  if is_interface t then
    match v with VIface d => d | _ => None end
  else Some (t, v).

(** [reflect.TypeOf(i)]: the dynamic type, nil for a nil interface. *)
Definition TypeOf (i : any_value) : option gotype := fst <$> i.

(** [fmt.Sprintf("%v", t)] for [t] a [reflect.Type]: [fmt] calls
    [t.String()], and prints ["<nil>"] for a nil interface. *)
Definition Sprintf_v_type (t : option gotype) : string :=
  match t with
  | Some t => type_string t
  | None => "<nil>"
  end.

(** ** Method sets and the type assertion [x.(T)] *)

(** The method set of a dynamic type: the value-receiver methods of a
    defined type, and both kinds for a pointer to a defined type. *)
Definition method_set (t : gotype) : list method :=
  match t with
  | TNamed _ _ _ u vm _ =>
      match underlying u with TInterface ms => ms | _ => vm end
  | TPointer (TNamed _ _ _ _ vm pm) => vm ++ pm
  | _ => []
  end.

Definition iface_methods (t : gotype) : list method :=
  match underlying t with TInterface ms => ms | _ => [] end.

Definition implements (dt t : gotype) : bool :=
  forallb (fun m => bool_decide (m ∈ method_set dt)) (iface_methods t).

(** [x.(T)] on [x : any]: for a non-interface [T] the dynamic type must be
    [T]; for an interface [T] the dynamic type must implement it, and the
    result is an interface value.  A nil [x] fails in both cases.  [None]
    is the failure, on which Go panics with a [*runtime.TypeAssertionError]. *)
Definition type_assert (x : any_value) (t : gotype) : option value :=
  match x with
  | None => None
  | Some (dt, v) =>
      if is_interface t then
        if implements dt t then Some (VIface (Some (dt, v))) else None
      else if decide (dt = t) then Some v else None
  end.

(** The run-time errors the package can raise: a nil pointer dereference
    (also the error of calling a nil [func] value), an assignment into a
    nil map, and a failed type assertion, with the dynamic type found
    ([None] for a nil interface) and the type asserted. *)
Inductive runtime_error :=
| ErrNilDeref
| ErrNilMapWrite
| ErrTypeAssert (concrete : option gotype) (asserted : gotype).

(** ** Lemmas *)

Lemma is_interface_named p pk n u vm pm :
  is_interface (TNamed p pk n u vm pm) = is_interface u.
Proof. reflexivity. Qed.

(** The zero value of an interface type is the nil interface. *)
Lemma zero_value_interface t : is_interface t = true -> zero_value t = VIface None.
Proof.
  induction t using gotype_ind; unfold is_interface; simpl; try discriminate; auto.
Qed.

Lemma to_any_zero t :
  to_any t (zero_value t) = if is_interface t then None else Some (t, zero_value t).
Proof.
  unfold to_any. destruct (is_interface t) eqn:Hi; [|done].
  by rewrite zero_value_interface.
Qed.

Lemma TypeOf_zero t :
  TypeOf (to_any t (zero_value t)) = if is_interface t then None else Some t.
Proof. rewrite to_any_zero. by destruct (is_interface t). Qed.

Lemma type_assert_nil t : type_assert None t = None.
Proof. reflexivity. Qed.

Lemma type_assert_same t v : is_interface t = false -> type_assert (Some (t, v)) t = Some v.
Proof. intros Hi. simpl. rewrite Hi. by rewrite decide_True. Qed.

Lemma type_assert_concrete_ne dt t v :
  is_interface t = false -> dt <> t -> type_assert (Some (dt, v)) t = None.
Proof. intros Hi Hne. simpl. rewrite Hi. by rewrite decide_False. Qed.

Lemma type_assert_iface dt t v :
  is_interface t = true ->
  type_assert (Some (dt, v)) t =
    if implements dt t then Some (VIface (Some (dt, v))) else None.
Proof. intros Hi. simpl. by rewrite Hi. Qed.

#[export] Hint Rewrite to_any_zero TypeOf_zero type_assert_nil : go_rw.
