(* ===== verification/Registry.v ===== *)
(** * The registry of [src/Registry.go]

    The memory of a Go program running the package, as far as the package
    touches it: a heap of [Registry] structs, a heap of Go maps (a Go map
    is a reference to a shared table, so two [Registry] values can hold
    the same map), the allocation counter, and the package variable
    [DefaultRegistry].  Every function of [Registry.go] is a computation
    of the [GoM] monad over that memory, with the same name and the same
    body: the convenience functions call the primitive ones exactly as the
    source does.  A pointer is [option nat], [None] being [nil]. *)

From S2P Require Import Prelude GoTypes.

(** ** Memory *)

(** [type Registry struct { typeMapping map[string]func() any }]: the field
    holds a reference to a Go map, [None] for a nil map. *)
Record Registry := mkRegistry { typeMapping : option nat }.

(** The only [func() any] values the package stores: the closure
    [func() any { return Hydrate[T]() }] built by [RegisterIntoWithKey],
    which captures the type parameter [T]. *)
Inductive Factory := HydrateClosure (T : gotype).

Record World := mkWorld {
  regs : gmap nat Registry;
  gomaps : gmap nat (gmap string Factory);
  next : nat;
  DefaultRegistry : option nat
}.

Definition M := GoM runtime_error World.

Definition set_regs (rs : gmap nat Registry) (w : World) : World :=
  mkWorld rs (gomaps w) (next w) (DefaultRegistry w).
Definition set_gomaps (ms : gmap nat (gmap string Factory)) (w : World) : World :=
  mkWorld (regs w) ms (next w) (DefaultRegistry w).
Definition set_DefaultRegistry (p : option nat) (w : World) : World :=
  mkWorld (regs w) (gomaps w) (next w) p.

(** Allocation of a fresh Go map ([map[string]func() any{}]). *)
Definition alloc_map : M nat :=
  fun w => Ok (next w) (mkWorld (regs w) (<[next w := ∅]> (gomaps w)) (S (next w))
                                (DefaultRegistry w)).

(** Allocation of a fresh [Registry] struct ([&Registry{...}]). *)
Definition alloc_registry (r : Registry) : M nat :=
  fun w => Ok (next w) (mkWorld (<[next w := r]> (regs w)) (gomaps w) (S (next w))
                                (DefaultRegistry w)).

(** [*p] for [p : *Registry]: nil panics.  (Addresses not allocated do not
    occur in reachable memories, see [RegistryInv]; they panic too.) *)
Definition load_registry (p : option nat) : M Registry :=
  fun w =>
    match p with
    | None => Panic ErrNilDeref w
    | Some l =>
        match regs w !! l with
        | Some r => Ok r w
        | None => Panic ErrNilDeref w
        end
    end.

(** [m[k]] in its comma-ok form: reading a nil map finds nothing. *)
Definition map_index (m : option nat) (k : string) : M (option Factory) :=
  fun w =>
    match m with
    | None => Ok None w
    | Some l => Ok (gomaps w !! l ≫= (fun tbl => tbl !! k)) w
    end.

(** [m[k] = f]: writing into a nil map panics. *)
Definition map_store (m : option nat) (k : string) (f : Factory) : M unit :=
  fun w =>
    match m with
    | None => Panic ErrNilMapWrite w
    | Some l =>
        match gomaps w !! l with
        | Some tbl => Ok tt (set_gomaps (<[l := <[k := f]> tbl]> (gomaps w)) w)
        | None => Panic ErrNilDeref w
        end
    end.

(** ** [Registry.go] *)

(** [func NewRegistry() *Registry]: the map literal, then the struct. *)
Definition NewRegistry : M (option nat) :=
  m ← alloc_map;
  r ← alloc_registry (mkRegistry (Some m));
  mret (Some r).

(** [var DefaultRegistry = NewRegistry()]: the package initialisation. *)
Definition package_init : M unit :=
  p ← NewRegistry;
  go_modify (set_DefaultRegistry p).

Definition empty_world : World := mkWorld ∅ ∅ 0 None.

(** The memory when [main] starts: the package initialised. *)
Definition init_world : World :=
  match package_init empty_world with
  | Ok _ w => w
  | Panic _ w => w
  end.

(** [func Hydrate[T any]() T { var t T; return t }] *)
Definition Hydrate (T : gotype) : value := zero_value T.

(** [func DerivedTypeKey[T any]() string]:
    [t := Hydrate[T](); return fmt.Sprintf("%v", reflect.TypeOf(t))]. *)
Definition DerivedTypeKey (T : gotype) : string :=
  let t := Hydrate T in
  Sprintf_v_type (TypeOf (to_any T t)).

(** The body of the closure [func() any { return Hydrate[T]() }]. *)
Definition call_factory (f : Factory) : any_value :=
  match f with
  | HydrateClosure T => to_any T (Hydrate T)
  end.

(** [func RegisterIntoWithKey[T any](registry *Registry, typeKey string)]:
    [registry.typeMapping[typeKey] = func() any { return Hydrate[T]() }]. *)
Definition RegisterIntoWithKey (T : gotype) (registry : option nat) (typeKey : string) : M unit :=
  r ← load_registry registry;
  map_store (typeMapping r) typeKey (HydrateClosure T).

(** [func RegisterWithKey[T any](typeKey string)] *)
Definition RegisterWithKey (T : gotype) (typeKey : string) : M unit :=
  d ← go_gets DefaultRegistry;
  RegisterIntoWithKey T d typeKey.

(** [func Register[T any]()] *)
Definition Register (T : gotype) : M unit :=
  let typeKey := DerivedTypeKey T in
  RegisterWithKey T typeKey.

(** [func RegisterInto[T any](registry *Registry)] *)
Definition RegisterInto (T : gotype) (registry : option nat) : M unit :=
  let typeKey := DerivedTypeKey T in
  RegisterIntoWithKey T registry typeKey.

(** [func ResolveFromWithKey[T any](registry *Registry, typeKey string) T]:
    [return registry.typeMapping[typeKey]().(T)].  The missing entry reads
    as the nil [func], whose call panics; a failed assertion panics. *)
Definition ResolveFromWithKey (T : gotype) (registry : option nat) (typeKey : string) : M value :=
  r ← load_registry registry;
  f ← map_index (typeMapping r) typeKey;
  match f with
  | None => go_panic ErrNilDeref
  | Some f =>
      let x := call_factory f in
      match type_assert x T with
      | Some v => mret v
      | None => go_panic (ErrTypeAssert (TypeOf x) T)
      end
  end.

(** [func ResolveWithKey[T any](typeKey string) T] *)
Definition ResolveWithKey (T : gotype) (typeKey : string) : M value :=
  d ← go_gets DefaultRegistry;
  ResolveFromWithKey T d typeKey.

(** [func Resolve[T any]() T] *)
Definition Resolve (T : gotype) : M value :=
  let typeKey := DerivedTypeKey T in
  ResolveWithKey T typeKey.

(** [func ResolveFrom[T any](registry *Registry) T] *)
Definition ResolveFrom (T : gotype) (registry : option nat) : M value :=
  let typeKey := DerivedTypeKey T in
  ResolveFromWithKey T registry typeKey.

(** [func KnowsTypeKeyIn(registry *Registry, typeKey string) bool]:
    [_, ok := registry.typeMapping[typeKey]; return ok]. *)
Definition KnowsTypeKeyIn (registry : option nat) (typeKey : string) : M bool :=
  r ← load_registry registry;
  f ← map_index (typeMapping r) typeKey;
  mret (bool_decide (is_Some f)).

(** [func KnowsTypeKey(typeKey string) bool] *)
Definition KnowsTypeKey (typeKey : string) : M bool :=
  d ← go_gets DefaultRegistry;
  KnowsTypeKeyIn d typeKey.

(** [func Knows[T any]() bool] *)
Definition Knows (T : gotype) : M bool :=
  let typeKey := DerivedTypeKey T in
  KnowsTypeKey typeKey.

(** [func KnowsIn[T any](registry *Registry) bool] *)
Definition KnowsIn (T : gotype) (registry : option nat) : M bool :=
  let typeKey := DerivedTypeKey T in
  KnowsTypeKeyIn registry typeKey.

(** ** Views of the memory used by the theorems *)

(** The map held by the registry [p] points to, when [p] is a valid
    pointer (the inner [option] is the field: [None] is a nil map). *)
Definition map_of (w : World) (p : option nat) : option (option nat) :=
  l ← p; r ← regs w !! l; Some (typeMapping r).

(** The table of a registry: its Go map's contents, when [p] is valid and
    the map is not nil. *)
Definition table_of (w : World) (p : option nat) : option (gmap string Factory) :=
  om ← map_of w p; m ← om; gomaps w !! m.

(** What [registry.typeMapping[k]] finds: [None] when [registry] cannot
    be dereferenced, [Some None] when the entry is absent (or the map is
    nil), [Some (Some f)] for a stored factory. *)
Definition entry_of (w : World) (p : option nat) (k : string) : option (option Factory) :=
  om ← map_of w p; Some (om ≫= fun m => gomaps w !! m ≫= (fun tbl => tbl !! k)).

(** The well-formedness of a memory: every address in use was allocated
    below the counter, and every registry's map is allocated. *)
Record wf (w : World) : Prop := {
  wf_regs : below (regs w) (next w);
  wf_maps : below (gomaps w) (next w);
  wf_reg_maps : forall l r m, regs w !! l = Some r -> typeMapping r = Some m ->
                 is_Some (gomaps w !! m);
  wf_default : forall l, DefaultRegistry w = Some l -> is_Some (regs w !! l)
}.

(** The four call shapes of each operation: key derived or explicit,
    registry default or explicit. *)
Inductive key_arg := DerivedKey | ExplicitKey (k : string).
Inductive reg_arg := DefaultReg | ExplicitReg (p : option nat).

Definition key_of (T : gotype) (ka : key_arg) : string :=
  match ka with DerivedKey => DerivedTypeKey T | ExplicitKey k => k end.

Definition reg_of (w : World) (ra : reg_arg) : option nat :=
  match ra with DefaultReg => DefaultRegistry w | ExplicitReg p => p end.

Definition register_call (T : gotype) (ka : key_arg) (ra : reg_arg) : M unit :=
  match ka, ra with
  | DerivedKey, DefaultReg => Register T
  | ExplicitKey k, DefaultReg => RegisterWithKey T k
  | DerivedKey, ExplicitReg p => RegisterInto T p
  | ExplicitKey k, ExplicitReg p => RegisterIntoWithKey T p k
  end.

Definition resolve_call (T : gotype) (ka : key_arg) (ra : reg_arg) : M value :=
  match ka, ra with
  | DerivedKey, DefaultReg => Resolve T
  | ExplicitKey k, DefaultReg => ResolveWithKey T k
  | DerivedKey, ExplicitReg p => ResolveFrom T p
  | ExplicitKey k, ExplicitReg p => ResolveFromWithKey T p k
  end.

Definition knows_call (T : gotype) (ka : key_arg) (ra : reg_arg) : M bool :=
  match ka, ra with
  | DerivedKey, DefaultReg => Knows T
  | ExplicitKey k, DefaultReg => KnowsTypeKey k
  | DerivedKey, ExplicitReg p => KnowsIn T p
  | ExplicitKey k, ExplicitReg p => KnowsTypeKeyIn p k
  end.

(** ** Lemmas on the primitive operations *)

Lemma map_of_Some w p om :
  map_of w p = Some om -> exists l, p = Some l /\ regs w !! l = Some (mkRegistry om).
Proof.
  unfold map_of. destruct p as [l|]; simpl; [|discriminate].
  destruct (regs w !! l) as [r|] eqn:Hl; simpl; [|discriminate].
  intros [= <-]. exists l. split; [done|]. rewrite Hl. by destruct r.
Qed.

Lemma map_of_None w p : map_of w p = None -> w ⊢ load_registry p ↯ ErrNilDeref ⊣ w.
Proof.
  unfold map_of, load_registry. destruct p as [l|]; simpl; [|done].
  by destruct (regs w !! l).
Qed.

Lemma load_registry_ok w l r :
  regs w !! l = Some r -> w ⊢ load_registry (Some l) ⇓ r ⊣ w.
Proof. intros H. unfold load_registry. by rewrite H. Qed.

Lemma table_of_map w p m : map_of w p = Some (Some m) -> table_of w p = gomaps w !! m.
Proof. unfold table_of. by intros ->. Qed.

Lemma table_of_Some w p tbl :
  table_of w p = Some tbl -> exists m, map_of w p = Some (Some m) /\ gomaps w !! m = Some tbl.
Proof.
  unfold table_of. destruct (map_of w p) as [[m|]|]; simpl; try discriminate. eauto.
Qed.

Lemma entry_of_table w p tbl k : table_of w p = Some tbl -> entry_of w p k = Some (tbl !! k).
Proof.
  intros (m & Hp & Hm)%table_of_Some. unfold entry_of. rewrite Hp. simpl. by rewrite Hm.
Qed.

Lemma DerivedTypeKey_spec T :
  DerivedTypeKey T = if is_interface T then "<nil>" else type_string T.
Proof.
  unfold DerivedTypeKey, Hydrate. rewrite TypeOf_zero. by destruct (is_interface T).
Qed.

Lemma call_factory_spec U :
  call_factory (HydrateClosure U) =
    if is_interface U then None else Some (U, zero_value U).
Proof. apply to_any_zero. Qed.

(** [RegisterIntoWithKey] on every branch. *)
Lemma RegisterIntoWithKey_spec T p k w :
  RegisterIntoWithKey T p k w =
    match map_of w p with
    | None => Panic ErrNilDeref w
    | Some None => Panic ErrNilMapWrite w
    | Some (Some m) =>
        match gomaps w !! m with
        | None => Panic ErrNilDeref w
        | Some tbl => Ok tt (set_gomaps (<[m := <[k := HydrateClosure T]> tbl]> (gomaps w)) w)
        end
    end.
Proof.
  unfold RegisterIntoWithKey. destruct (map_of w p) as [om|] eqn:Hp.
  - destruct (map_of_Some _ _ _ Hp) as (l & -> & Hl).
    go_unfold. unfold load_registry. rewrite Hl. done.
  - by rewrite (go_bind_Panic _ _ _ _ _ (map_of_None _ _ Hp)).
Qed.

(** [KnowsTypeKeyIn] on every branch. *)
Lemma KnowsTypeKeyIn_spec p k w :
  KnowsTypeKeyIn p k w =
    match entry_of w p k with
    | None => Panic ErrNilDeref w
    | Some e => Ok (bool_decide (is_Some e)) w
    end.
Proof.
  unfold KnowsTypeKeyIn, entry_of. destruct (map_of w p) as [om|] eqn:Hp.
  - destruct (map_of_Some _ _ _ Hp) as (l & -> & Hl).
    go_unfold. unfold load_registry. rewrite Hl. simpl. by destruct om.
  - by rewrite (go_bind_Panic _ _ _ _ _ (map_of_None _ _ Hp)).
Qed.

(** [ResolveFromWithKey] on every branch. *)
Lemma ResolveFromWithKey_spec T p k w :
  ResolveFromWithKey T p k w =
    match entry_of w p k with
    | None | Some None => Panic ErrNilDeref w
    | Some (Some f) =>
        match type_assert (call_factory f) T with
        | Some v => Ok v w
        | None => Panic (ErrTypeAssert (TypeOf (call_factory f)) T) w
        end
    end.
Proof.
  unfold ResolveFromWithKey, entry_of. destruct (map_of w p) as [om|] eqn:Hp.
  - destruct (map_of_Some _ _ _ Hp) as (l & -> & Hl).
    go_unfold. unfold load_registry. rewrite Hl. simpl.
    destruct om as [m|]; simpl; [|done].
    destruct (gomaps w !! m) as [tbl|]; simpl; [|done].
    destruct (tbl !! k) as [f|]; [|done].
    by destruct (type_assert _ _).
  - by rewrite (go_bind_Panic _ _ _ _ _ (map_of_None _ _ Hp)).
Qed.

(** A registration changes only the entries of the registries sharing its map. *)
Lemma map_of_set_gomaps ms w q : map_of (set_gomaps ms w) q = map_of w q.
Proof. reflexivity. Qed.

Lemma entry_of_register w m tbl k f q k' :
  gomaps w !! m = Some tbl ->
  entry_of (set_gomaps (<[m := <[k := f]> tbl]> (gomaps w)) w) q k' =
    if decide (map_of w q = Some (Some m) /\ k' = k) then Some (Some f) else entry_of w q k'.
Proof.
  intros Hm. unfold entry_of. rewrite map_of_set_gomaps.
  case_decide as Hq.
  - destruct Hq as [Hq ->]. rewrite Hq. simpl. rewrite lookup_insert_eq. simpl.
    by rewrite lookup_insert_eq.
  - destruct (map_of w q) as [[m'|]|]; simpl; [|done..].
    destruct (decide (m' = m)) as [->|Hne].
    + rewrite lookup_insert_eq, Hm. simpl. rewrite lookup_insert_ne; [done|naive_solver].
    + by rewrite lookup_insert_ne by congruence.
Qed.

Lemma table_of_register w m tbl k f q :
  gomaps w !! m = Some tbl ->
  table_of (set_gomaps (<[m := <[k := f]> tbl]> (gomaps w)) w) q =
    if decide (map_of w q = Some (Some m)) then Some (<[k := f]> tbl) else table_of w q.
Proof.
  intros Hm. unfold table_of. rewrite map_of_set_gomaps.
  case_decide as Hq.
  - rewrite Hq. simpl. by rewrite lookup_insert_eq.
  - destruct (map_of w q) as [[m'|]|]; simpl; [|done..].
    rewrite lookup_insert_ne; [done | congruence].
Qed.

Lemma reg_of_set_gomaps ms w ra : reg_of (set_gomaps ms w) ra = reg_of w ra.
Proof. by destruct ra. Qed.

(** The effect of a registration into a registry with a table. *)
Lemma RegisterIntoWithKey_table T p k w tbl :
  table_of w p = Some tbl ->
  exists m, map_of w p = Some (Some m) /\ gomaps w !! m = Some tbl /\
    (w ⊢ RegisterIntoWithKey T p k ⇓ tt
       ⊣ set_gomaps (<[m := <[k := HydrateClosure T]> tbl]> (gomaps w)) w).
Proof.
  intros (m & Hp & Hm)%table_of_Some. exists m. rewrite RegisterIntoWithKey_spec, Hp, Hm. done.
Qed.

(** The convenience shapes compose the primitives with the key and the
    registry they name. *)
Lemma register_call_prim T ka ra w :
  register_call T ka ra w = RegisterIntoWithKey T (reg_of w ra) (key_of T ka) w.
Proof. by destruct ka, ra. Qed.

Lemma resolve_call_prim T ka ra w :
  resolve_call T ka ra w = ResolveFromWithKey T (reg_of w ra) (key_of T ka) w.
Proof. by destruct ka, ra. Qed.

Lemma knows_call_prim T ka ra w :
  knows_call T ka ra w = KnowsTypeKeyIn (reg_of w ra) (key_of T ka) w.
Proof. by destruct ka, ra. Qed.

#[export] Hint Rewrite register_call_prim resolve_call_prim knows_call_prim
  RegisterIntoWithKey_spec KnowsTypeKeyIn_spec ResolveFromWithKey_spec
  call_factory_spec DerivedTypeKey_spec : go_rw.

(** The effect of a registration into a registry with a table: the
    package variable and every registry's map are unchanged, and exactly
    the registries holding the same map see the new entry. *)
Lemma RegisterIntoWithKey_effect T p k w tbl :
  table_of w p = Some tbl ->
  exists w', (w ⊢ RegisterIntoWithKey T p k ⇓ tt ⊣ w') /\
    DefaultRegistry w' = DefaultRegistry w /\
    (forall q, map_of w' q = map_of w q) /\
    (forall q, table_of w q <> None -> table_of w' q <> None) /\
    (forall q k', entry_of w' q k' =
       if decide (map_of w q = map_of w p /\ k' = k)
       then Some (Some (HydrateClosure T)) else entry_of w q k').
Proof.
  intros Htbl. destruct (RegisterIntoWithKey_table T p k w tbl Htbl) as (m & Hp & Hm & Hreg).
  eexists. split; [exact Hreg|]. split; [done|]. split; [done|]. split.
  - intros q Hq. rewrite (table_of_register _ _ _ _ _ _ Hm). by case_decide.
  - intros q k'. rewrite (entry_of_register _ _ _ _ _ _ _ Hm), Hp. done.
Qed.

Lemma reg_of_same w w' ra : DefaultRegistry w' = DefaultRegistry w -> reg_of w' ra = reg_of w ra.
Proof. destruct ra; simpl; auto. Qed.

(** Resolution of an entry holding the closure of a non-interface type [U]. *)
Lemma ResolveFromWithKey_registered w p k U T :
  entry_of w p k = Some (Some (HydrateClosure U)) -> is_interface U = false ->
  ResolveFromWithKey T p k w =
    if is_interface T then
      if implements U T then Ok (VIface (Some (U, zero_value U))) w
      else Panic (ErrTypeAssert (Some U) T) w
    else if decide (U = T) then Ok (zero_value U) w
    else Panic (ErrTypeAssert (Some U) T) w.
Proof.
  intros He HU. rewrite ResolveFromWithKey_spec, He, call_factory_spec, HU. simpl.
  destruct (is_interface T); [by destruct (implements U T)|].
  by case_decide.
Qed.

(** Resolution of an entry holding the closure of an interface type [U]:
    the closure returns a nil [any], on which every assertion fails. *)
Lemma ResolveFromWithKey_registered_iface w p k U T :
  entry_of w p k = Some (Some (HydrateClosure U)) -> is_interface U = true ->
  w ⊢ ResolveFromWithKey T p k ↯ ErrTypeAssert None T ⊣ w.
Proof. intros He HU. by rewrite ResolveFromWithKey_spec, He, call_factory_spec, HU. Qed.

Lemma KnowsTypeKeyIn_registered w p k f :
  entry_of w p k = Some (Some f) -> w ⊢ KnowsTypeKeyIn p k ⇓ true ⊣ w.
Proof. intros He. by rewrite KnowsTypeKeyIn_spec, He. Qed.

(** [new(Registry)] (or [&Registry{}]) in client code: a registry whose
    map is nil, which the package cannot prevent since [Registry] is
    exported. *)
Definition new_Registry : M (option nat) :=
  l ← alloc_registry (mkRegistry None);
  mret (Some l).

(** An example type of a client package, [pkg.Widget]. *)
Definition Widget : gotype :=
  TNamed "example.com/pkg" "pkg" "Widget" (TStruct [("Name", TBasic KString)]) [] [].

(** Two registrations through the same pointer, in sequence. *)
Lemma RegisterIntoWithKey_twice T1 T2 p k1 k2 w :
  (RegisterIntoWithKey T1 p k1 ;; RegisterIntoWithKey T2 p k2) w =
    match map_of w p with
    | None => Panic ErrNilDeref w
    | Some None => Panic ErrNilMapWrite w
    | Some (Some m) =>
        match gomaps w !! m with
        | None => Panic ErrNilDeref w
        | Some tbl => Ok tt (set_gomaps (<[m := <[k2 := HydrateClosure T2]>
                                                (<[k1 := HydrateClosure T1]> tbl)]> (gomaps w)) w)
        end
    end.
Proof.
  go_unfold. rewrite (RegisterIntoWithKey_spec T1).
  destruct (map_of w p) as [[m|]|] eqn:Hp; [|done..].
  destruct (gomaps w !! m) as [tbl|] eqn:Hm; [|done].
  rewrite RegisterIntoWithKey_spec, map_of_set_gomaps, Hp. simpl.
  rewrite lookup_insert_eq, insert_insert_eq. done.
Qed.

(** ** Theorems *)

(** C1 (round trip).  For a non-interface type [T], after a registration
    in any of the four shapes into a registry with a map, the existence
    check and the resolution in any of their four shapes that name the
    same registry and the same key succeed: [Knows] reports [true] and
    [Resolve] returns the zero value of [T]. *)
Theorem register_knows_resolve_roundtrip T ka1 ra1 ka2 ra2 ka3 ra3 w tbl :
  is_interface T = false ->
  table_of w (reg_of w ra1) = Some tbl ->
  reg_of w ra2 = reg_of w ra1 -> key_of T ka2 = key_of T ka1 ->
  reg_of w ra3 = reg_of w ra1 -> key_of T ka3 = key_of T ka1 ->
  exists w', (w ⊢ register_call T ka1 ra1 ⇓ tt ⊣ w') /\
             (w' ⊢ knows_call T ka3 ra3 ⇓ true ⊣ w') /\
             (w' ⊢ resolve_call T ka2 ra2 ⇓ zero_value T ⊣ w').
Proof.
  intros Hi Htbl Hr2 Hk2 Hr3 Hk3.
  destruct (RegisterIntoWithKey_effect T _ (key_of T ka1) _ _ Htbl)
    as (w' & Hreg & Hd & _ & _ & He).
  exists w'. rewrite register_call_prim, knows_call_prim, resolve_call_prim,
    !(reg_of_same w w'), Hr2, Hr3, Hk2, Hk3 by done.
  split; [done|]. split.
  - eapply KnowsTypeKeyIn_registered. rewrite He. by rewrite decide_True.
  - rewrite (ResolveFromWithKey_registered _ _ _ T); [|by rewrite He, decide_True|done].
    by rewrite Hi, decide_True.
Qed.

Lemma register_knows_resolve_roundtrip_witness :
  exists w', (init_world ⊢ register_call Widget DerivedKey DefaultReg ⇓ tt ⊣ w') /\
    (w' ⊢ knows_call Widget (ExplicitKey "pkg.Widget") (ExplicitReg (Some 1)) ⇓ true ⊣ w') /\
    (w' ⊢ resolve_call Widget (ExplicitKey "pkg.Widget") DefaultReg ⇓ zero_value Widget ⊣ w').
Proof.
  apply (register_knows_resolve_roundtrip Widget DerivedKey DefaultReg _ _ _ _ init_world ∅);
    vm_compute; reflexivity.
Defined.

(** C3 (last write wins).  Registering [T1] and then [T2] under the same
    key of the same registry leaves exactly the memory that registering
    [T2] alone leaves, on every branch (the panics included): the first
    factory is forgotten. *)
Theorem register_last_write_wins T1 T2 p k w :
  (RegisterIntoWithKey T1 p k ≫= fun _ => RegisterIntoWithKey T2 p k) w =
    RegisterIntoWithKey T2 p k w.
Proof.
  rewrite RegisterIntoWithKey_twice, RegisterIntoWithKey_spec.
  destruct (map_of w p) as [[m|]|]; [|done..].
  destruct (gomaps w !! m); [|done]. by rewrite insert_insert_eq.
Qed.

(** C4 (unregistered resolve).  In a registry with a map, resolving a key
    that has no entry panics (the nil [func] is called) without changing
    the memory, and [KnowsTypeKeyIn] reports [false]. *)
Theorem resolve_unregistered_panics T p k w tbl :
  table_of w p = Some tbl -> tbl !! k = None ->
  (w ⊢ ResolveFromWithKey T p k ↯ ErrNilDeref ⊣ w) /\
  (w ⊢ KnowsTypeKeyIn p k ⇓ false ⊣ w).
Proof.
  intros Htbl Hk. pose proof (entry_of_table _ _ _ k Htbl) as He. rewrite Hk in He.
  rewrite ResolveFromWithKey_spec, KnowsTypeKeyIn_spec, He. done.
Qed.

Lemma resolve_unregistered_panics_witness :
  (init_world ⊢ ResolveFromWithKey Widget (Some 1) "pkg.Widget" ↯ ErrNilDeref ⊣ init_world) /\
  (init_world ⊢ KnowsTypeKeyIn (Some 1) "pkg.Widget" ⇓ false ⊣ init_world).
Proof. apply (resolve_unregistered_panics _ _ _ _ ∅); vm_compute; reflexivity. Defined.

(** C5 (read-only queries).  Resolution and the existence check, in all
    four shapes, never change the memory, whether they return or panic. *)
Theorem resolve_knows_read_only T ka ra w :
  final_state (resolve_call T ka ra w) = w /\ final_state (knows_call T ka ra w) = w.
Proof.
  rewrite resolve_call_prim, knows_call_prim, ResolveFromWithKey_spec, KnowsTypeKeyIn_spec.
  split; repeat case_match; done.
Qed.

(** C12 (derived keys of interface types).  [DerivedTypeKey] of an
    interface type is ["<nil>"], not the type's name that the comment of
    [DerivedTypeKey] promises ("io.Reader" for [io.Reader]): the zero
    value is a nil interface, whose [reflect.TypeOf] is nil.  All
    interface types therefore share one derived key. *)
Theorem DerivedTypeKey_interface_nil I1 I2 :
  is_interface I1 = true -> is_interface I2 = true ->
  DerivedTypeKey I1 = "<nil>" /\ DerivedTypeKey I2 = DerivedTypeKey I1.
Proof. intros H1 H2. rewrite !DerivedTypeKey_spec, H1, H2. done. Qed.

(** [io.Reader] and the predeclared [error]. *)
Definition ioReader : gotype :=
  TNamed "io" "io" "Reader" (TInterface [("Read", "([]uint8) (int, error)")]) [] [].
Definition error_type : gotype :=
  TNamed "" "" "error" (TInterface [("Error", "() string")]) [] [].

Lemma DerivedTypeKey_interface_nil_witness :
  DerivedTypeKey ioReader = "<nil>" /\ DerivedTypeKey error_type = DerivedTypeKey ioReader.
Proof. apply DerivedTypeKey_interface_nil; reflexivity. Defined.

(** C11 (interface types do not round-trip).  Registering an interface
    type [I] with [Register] succeeds and [Knows[I]] then reports [true],
    but [Resolve[I]] always panics: the stored closure returns a nil
    [any] and the assertion [.(I)] fails on nil. *)
Theorem interface_register_resolve_panics I w tbl :
  is_interface I = true -> table_of w (DefaultRegistry w) = Some tbl ->
  exists w', (w ⊢ Register I ⇓ tt ⊣ w') /\ (w' ⊢ Knows I ⇓ true ⊣ w') /\
             (w' ⊢ Resolve I ↯ ErrTypeAssert None I ⊣ w').
Proof.
  intros Hi Htbl.
  destruct (RegisterIntoWithKey_effect I _ (DerivedTypeKey I) _ _ Htbl)
    as (w' & Hreg & Hd & _ & _ & He).
  assert (Hw : entry_of w' (DefaultRegistry w') (DerivedTypeKey I) = Some (Some (HydrateClosure I)))
    by (rewrite He, Hd; by rewrite decide_True).
  exists w'. split; [exact Hreg|]. split.
  - exact (KnowsTypeKeyIn_registered _ _ _ _ Hw).
  - exact (ResolveFromWithKey_registered_iface _ _ _ _ _ Hw Hi).
Qed.

Lemma interface_register_resolve_panics_witness :
  exists w', (init_world ⊢ Register ioReader ⇓ tt ⊣ w') /\ (w' ⊢ Knows ioReader ⇓ true ⊣ w') /\
             (w' ⊢ Resolve ioReader ↯ ErrTypeAssert None ioReader ⊣ w').
Proof. apply (interface_register_resolve_panics _ _ ∅); vm_compute; reflexivity. Defined.

(** C10 (resolution by another type).  After [U] (not an interface) is
    registered under a key, resolving the key at [T] returns the zero
    value of [U] when [T] is [U], the zero [U] wrapped as a [T] when [T]
    is an interface [U] implements, and panics with a type-assertion
    error naming [U] and [T] otherwise. *)
Theorem resolve_after_register U T p k w tbl :
  table_of w p = Some tbl -> is_interface U = false ->
  exists w', (w ⊢ RegisterIntoWithKey U p k ⇓ tt ⊣ w') /\
    ResolveFromWithKey T p k w' =
      if is_interface T then
        if implements U T then Ok (VIface (Some (U, zero_value U))) w'
        else Panic (ErrTypeAssert (Some U) T) w'
      else if decide (U = T) then Ok (zero_value U) w'
      else Panic (ErrTypeAssert (Some U) T) w'.
Proof.
  intros Htbl HU.
  destruct (RegisterIntoWithKey_effect U p k w tbl Htbl) as (w' & Hreg & _ & _ & _ & He).
  exists w'. split; [exact Hreg|].
  apply ResolveFromWithKey_registered; [|done]. rewrite He. by rewrite decide_True.
Qed.

(** [type Gadget struct { Name string }] in [pkg], with [func (g *Gadget)
    String() string]: a [*pkg.Gadget] implements [fmt.Stringer] through a
    pointer-receiver method. *)
Definition Gadget : gotype :=
  TNamed "example.com/pkg" "pkg" "Gadget" (TStruct [("Name", TBasic KString)]) []
         [("String", "() string")].
Definition Stringer : gotype :=
  TNamed "fmt" "fmt" "Stringer" (TInterface [("String", "() string")]) [] [].

Lemma resolve_after_register_witness :
  exists w', (init_world ⊢ RegisterIntoWithKey (TPointer Gadget) (Some 1) "k" ⇓ tt ⊣ w') /\
    ResolveFromWithKey Stringer (Some 1) "k" w' =
      Ok (VIface (Some (TPointer Gadget, zero_value (TPointer Gadget)))) w'.
Proof.
  destruct (resolve_after_register (TPointer Gadget) Stringer (Some 1) "k" init_world ∅)
    as (w' & H1 & H2); [vm_compute; reflexivity | reflexivity |].
  exists w'. split; [exact H1|]. rewrite H2. reflexivity.
Defined.

(** Two different types whose [reflect] names coincide: [util.Widget] of
    two packages named [util]. *)
Definition utilWidgetA : gotype :=
  TNamed "example.com/a/util" "util" "Widget" (TStruct []) [] [].
Definition utilWidgetB : gotype :=
  TNamed "example.com/b/util" "util" "Widget" (TStruct []) [] [].

(** C13 (derived keys collide).  Derived keys are qualified by package
    name, not import path, so two different non-interface types can share
    one.  Registering the second with [Register] silently replaces the
    first: [Knows] of the first still reports [true], and [Resolve] of the
    first then panics. *)
Theorem derived_key_collision T1 T2 w tbl :
  is_interface T1 = false -> is_interface T2 = false -> T1 <> T2 ->
  type_string T1 = type_string T2 ->
  table_of w (DefaultRegistry w) = Some tbl ->
  exists w1 w2, (w ⊢ Register T1 ⇓ tt ⊣ w1) /\ (w1 ⊢ Register T2 ⇓ tt ⊣ w2) /\
    (w2 ⊢ Knows T1 ⇓ true ⊣ w2) /\
    (w2 ⊢ Resolve T1 ↯ ErrTypeAssert (Some T2) T1 ⊣ w2).
Proof.
  intros H1 H2 Hne Hs Htbl.
  assert (Hk : DerivedTypeKey T2 = DerivedTypeKey T1) by (rewrite !DerivedTypeKey_spec, H1, H2; done).
  destruct (RegisterIntoWithKey_effect T1 _ (DerivedTypeKey T1) _ _ Htbl)
    as (w1 & Hr1 & Hd1 & Hm1 & Ht1 & _).
  assert (Htbl1 : table_of w1 (DefaultRegistry w1) <> None) by (rewrite Hd1; apply Ht1; congruence).
  destruct (table_of w1 (DefaultRegistry w1)) as [tbl1|] eqn:E1; [|done].
  destruct (RegisterIntoWithKey_effect T2 _ (DerivedTypeKey T2) _ _ E1)
    as (w2 & Hr2 & Hd2 & _ & _ & He2).
  assert (Hw : entry_of w2 (DefaultRegistry w2) (DerivedTypeKey T1) = Some (Some (HydrateClosure T2)))
    by (rewrite He2, Hd2, Hk; by rewrite decide_True).
  exists w1, w2. split; [exact Hr1|]. split; [exact Hr2|].
  split; [exact (KnowsTypeKeyIn_registered _ _ _ _ Hw)|].
  unfold Resolve, ResolveWithKey. go_unfold.
  rewrite (ResolveFromWithKey_registered _ _ _ T2 T1 Hw H2), H1. by rewrite decide_False.
Qed.

Lemma derived_key_collision_witness :
  exists w1 w2, (init_world ⊢ Register utilWidgetA ⇓ tt ⊣ w1) /\
    (w1 ⊢ Register utilWidgetB ⇓ tt ⊣ w2) /\ (w2 ⊢ Knows utilWidgetA ⇓ true ⊣ w2) /\
    (w2 ⊢ Resolve utilWidgetA ↯ ErrTypeAssert (Some utilWidgetB) utilWidgetA ⊣ w2).
Proof.
  apply (derived_key_collision _ _ _ ∅); try (vm_compute; reflexivity).
  unfold utilWidgetA, utilWidgetB. congruence.
Defined.

(** C14 (zero-value registries).  A [Registry] not made by [NewRegistry]
    (client code can write [new(hydration.Registry)]) has a nil map:
    registering into it panics with an assignment to a nil map, although
    registration is documented as always succeeding; the existence check
    reports [false] and resolution panics. *)
Theorem zero_registry_register_panics T k w l :
  regs w !! l = Some (mkRegistry None) ->
  (w ⊢ RegisterIntoWithKey T (Some l) k ↯ ErrNilMapWrite ⊣ w) /\
  (w ⊢ KnowsTypeKeyIn (Some l) k ⇓ false ⊣ w) /\
  (w ⊢ ResolveFromWithKey T (Some l) k ↯ ErrNilDeref ⊣ w).
Proof.
  intros Hl. assert (Hm : map_of w (Some l) = Some None) by (simpl; by rewrite Hl).
  assert (He : entry_of w (Some l) k = Some None) by (unfold entry_of; by rewrite Hm).
  rewrite RegisterIntoWithKey_spec, KnowsTypeKeyIn_spec, ResolveFromWithKey_spec, Hm, He.
  done.
Qed.

Definition zero_registry_world : World := final_state (new_Registry init_world).

Lemma zero_registry_register_panics_witness :
  (zero_registry_world ⊢ RegisterIntoWithKey Widget (Some 2) "pkg.Widget" ↯ ErrNilMapWrite
     ⊣ zero_registry_world) /\
  (zero_registry_world ⊢ KnowsTypeKeyIn (Some 2) "pkg.Widget" ⇓ false ⊣ zero_registry_world) /\
  (zero_registry_world ⊢ ResolveFromWithKey Widget (Some 2) "pkg.Widget" ↯ ErrNilDeref
     ⊣ zero_registry_world).
Proof. apply zero_registry_register_panics. vm_compute. reflexivity. Defined.

(** C15 (nil registries).  Every operation given a nil [*Registry]
    panics with a nil dereference and leaves the memory as it was. *)
Theorem nil_registry_panics T k w :
  (w ⊢ RegisterIntoWithKey T None k ↯ ErrNilDeref ⊣ w) /\
  (w ⊢ KnowsTypeKeyIn None k ↯ ErrNilDeref ⊣ w) /\
  (w ⊢ ResolveFromWithKey T None k ↯ ErrNilDeref ⊣ w).
Proof. rewrite RegisterIntoWithKey_spec, KnowsTypeKeyIn_spec, ResolveFromWithKey_spec. done. Qed.

(** [NewRegistry] allocates a map at the counter and the struct after it. *)
Lemma NewRegistry_spec w :
  w ⊢ NewRegistry ⇓ Some (S (next w))
    ⊣ mkWorld (<[S (next w) := mkRegistry (Some (next w))]> (regs w))
              (<[next w := ∅]> (gomaps w)) (S (S (next w))) (DefaultRegistry w).
Proof. reflexivity. Qed.

Lemma map_of_allocated w p m : wf w -> map_of w p = Some (Some m) -> m < next w.
Proof.
  intros Hwf (l & -> & Hl)%map_of_Some.
  apply (wf_maps _ Hwf), (wf_reg_maps _ Hwf l _ m Hl). done.
Qed.

(** The registries of [w] keep their entries across [NewRegistry], and
    none of them holds the new map. *)
Lemma NewRegistry_others w p k :
  wf w -> p <> Some (S (next w)) ->
  let w1 := mkWorld (<[S (next w) := mkRegistry (Some (next w))]> (regs w))
                    (<[next w := ∅]> (gomaps w)) (S (S (next w))) (DefaultRegistry w) in
  map_of w1 p <> Some (Some (next w)) /\ entry_of w1 p k = entry_of w p k.
Proof.
  intros Hwf Hp w1.
  assert (Hmap : map_of w1 p = map_of w p).
  { destruct p as [l|]; [|done]. unfold map_of; simpl.
    rewrite lookup_insert_ne; [done | congruence]. }
  split.
  - rewrite Hmap. intros Hm. pose proof (map_of_allocated _ _ _ Hwf Hm). lia.
  - unfold entry_of. rewrite Hmap.
    destruct (map_of w p) as [[m|]|] eqn:Hm; simpl; [|done..].
    pose proof (map_of_allocated _ _ _ Hwf Hm).
    rewrite lookup_insert_ne; [done | lia].
Qed.

Lemma wf_default_fresh w : wf w -> DefaultRegistry w <> Some (S (next w)).
Proof.
  intros Hwf Hd. destruct (wf_default _ Hwf _ Hd) as [r Hr].
  pose proof (wf_regs _ Hwf (S (next w)) ltac:(by eexists)). lia.
Qed.

(** C9 (isolation).  In a well-formed memory, registering a type into a
    registry fresh from [NewRegistry] changes no entry of any other
    registry, and leaves what [Knows] reports about the default registry
    as it was. *)
Theorem new_registry_isolated T w q w1 w2 :
  wf w -> (w ⊢ NewRegistry ⇓ q ⊣ w1) -> (w1 ⊢ RegisterInto T q ⇓ tt ⊣ w2) ->
  (forall p k, p <> q -> entry_of w2 p k = entry_of w p k) /\
  result_of (Knows T w2) = result_of (Knows T w).
Proof.
  intros Hwf Hnew Hreg. rewrite NewRegistry_spec in Hnew. injection Hnew as <- <-.
  set (w1 := mkWorld _ _ _ _) in Hreg.
  assert (Ht : table_of w1 (Some (S (next w))) = Some ∅)
    by (unfold table_of, map_of, w1; cbn; rewrite lookup_insert_eq; cbn;
        by rewrite lookup_insert_eq).
  destruct (RegisterIntoWithKey_effect T _ (DerivedTypeKey T) _ _ Ht)
    as (w2' & Hr & Hd & _ & _ & He).
  unfold RegisterInto in Hreg. rewrite Hr in Hreg. injection Hreg as <-.
  assert (Hent : forall p k, p <> Some (S (next w)) -> entry_of w2' p k = entry_of w p k).
  { intros p k Hp. destruct (NewRegistry_others w p k Hwf Hp) as [Hn Hk].
    rewrite He, decide_False; [exact Hk|]. intros [Hm _]. apply Hn.
    change (map_of w1 p = Some (Some (next w))). rewrite Hm.
    unfold w1, map_of; cbn. by rewrite lookup_insert_eq. }
  split; [exact Hent|].
  unfold Knows, KnowsTypeKey. go_unfold. rewrite Hd. simpl.
  rewrite !KnowsTypeKeyIn_spec, Hent by (apply wf_default_fresh, Hwf).
  by destruct (entry_of w _ _).
Qed.

Lemma wf_empty : wf empty_world.
Proof.
  split; simpl; try apply below_empty.
  - intros l r m Hl. by rewrite lookup_empty in Hl.
  - discriminate.
Qed.

(** [NewRegistry] keeps the memory well formed. *)
Lemma NewRegistry_wf w :
  wf w ->
  wf (mkWorld (<[S (next w) := mkRegistry (Some (next w))]> (regs w))
              (<[next w := ∅]> (gomaps w)) (S (S (next w))) (DefaultRegistry w)).
Proof.
  intros Hwf. split; simpl.
  - apply below_insert_fresh, (below_mono _ (next w)); [apply Hwf | lia].
  - apply (below_mono _ (S (next w))); [apply below_insert_fresh, Hwf | lia].
  - intros l r m Hl Hm. rewrite lookup_insert in Hl. case_decide; simplify_eq/=.
    + rewrite lookup_insert_eq. by eexists.
    + rewrite lookup_insert. case_decide; [by eexists|]. by eapply (wf_reg_maps _ Hwf).
  - intros l Hd. rewrite lookup_insert. case_decide; [by eexists|]. by apply (wf_default _ Hwf).
Qed.

Lemma wf_init_world : wf init_world.
Proof.
  pose proof (NewRegistry_wf _ wf_empty) as [H1 H2 H3 _].
  split; try assumption. intros l [= <-]. vm_compute. by eexists.
Qed.

Lemma new_registry_isolated_witness :
  wf init_world /\
  (init_world ⊢ NewRegistry ⇓ Some 3 ⊣ final_state (NewRegistry init_world)) /\
  (final_state (NewRegistry init_world) ⊢ RegisterInto Widget (Some 3) ⇓ tt
     ⊣ final_state (RegisterInto Widget (Some 3) (final_state (NewRegistry init_world)))) /\
  result_of (Knows Widget (final_state (RegisterInto Widget (Some 3)
                              (final_state (NewRegistry init_world))))) =
  result_of (Knows Widget init_world).
Proof.
  pose proof wf_init_world as Hwf.
  split; [exact Hwf|]. split; [reflexivity|]. split; [reflexivity|].
  refine (proj2 (new_registry_isolated Widget init_world (Some 3)
    (final_state (NewRegistry init_world))
    (final_state (RegisterInto Widget (Some 3) (final_state (NewRegistry init_world))))
    Hwf _ _)); reflexivity.
Defined.

(** C21 (registration order is irrelevant).  Registrations under two
    different keys of the same registry commute: both orders leave the
    same memory and the same outcome, on every branch (the panics
    included).  So the order in which package [init] functions register
    their types does not matter, as long as their keys differ. *)
Theorem register_commute T1 T2 p k1 k2 w :
  k1 <> k2 ->
  (RegisterIntoWithKey T1 p k1 ;; RegisterIntoWithKey T2 p k2) w =
    (RegisterIntoWithKey T2 p k2 ;; RegisterIntoWithKey T1 p k1) w.
Proof.
  intros Hk. rewrite !RegisterIntoWithKey_twice.
  destruct (map_of w p) as [[m|]|]; [|done..].
  destruct (gomaps w !! m); [|done]. by rewrite insert_insert_ne.
Qed.

Lemma register_commute_witness :
  "pkg.Widget" <> "pkg.Gadget" /\
  (RegisterIntoWithKey Widget (Some 1) "pkg.Widget" ;;
   RegisterIntoWithKey Gadget (Some 1) "pkg.Gadget") init_world =
  (RegisterIntoWithKey Gadget (Some 1) "pkg.Gadget" ;;
   RegisterIntoWithKey Widget (Some 1) "pkg.Widget") init_world.
Proof.
  assert (H : "pkg.Widget" <> "pkg.Gadget") by discriminate.
  split; [exact H | exact (register_commute Widget Gadget (Some 1) _ _ init_world H)].
Defined.
