(* ===== verification/RegistryInv.v ===== *)
(** * Programs using the package: steps, reachability and invariants

    A Go program that uses the package changes the memory of [Registry]
    only through these steps: [NewRegistry], a registration (the four
    registration functions all end in [RegisterIntoWithKey], see
    [register_call_prim]), assigning the exported variable
    [DefaultRegistry], and two things the language lets a client do with
    the exported struct type: [new(Registry)] (a registry with a nil map)
    and copying a [Registry] value ([c := *r]), which copies the map
    reference.  Resolution and the existence check never change the
    memory ([resolve_knows_read_only]), and a panicking registration
    leaves it as it was, so they are no steps.

    [client_step allow_copy] is the step relation; [allow_copy] says
    whether struct copies are among the steps.  The well-formedness
    [wf] holds in every reachable memory, registrations are never removed; without copies, no two
    registries share a map, which is what makes registries isolated. *)

From S2P Require Import Prelude GoTypes Registry.

(** [c := *r; p := &c] in client code. *)
Definition copy_registry (p : option nat) : M (option nat) :=
  r ← load_registry p;
  l ← alloc_registry r;
  mret (Some l).

(** A pointer a well-typed Go program can hold: nil or allocated. *)
Definition valid_ptr (w : World) (p : option nat) : Prop :=
  match p with None => True | Some l => is_Some (regs w !! l) end.

Inductive client_step (allow_copy : bool) : World -> World -> Prop :=
| cs_new w p w' : (w ⊢ NewRegistry ⇓ p ⊣ w') -> client_step allow_copy w w'
| cs_new_zero w p w' : (w ⊢ new_Registry ⇓ p ⊣ w') -> client_step allow_copy w w'
| cs_register T p k w w' :
    (w ⊢ RegisterIntoWithKey T p k ⇓ tt ⊣ w') -> client_step allow_copy w w'
| cs_set_default p w : valid_ptr w p -> client_step allow_copy w (set_DefaultRegistry p w)
| cs_copy p q w w' :
    allow_copy = true -> (w ⊢ copy_registry p ⇓ q ⊣ w') -> client_step allow_copy w w'.

Definition reachable (allow_copy : bool) (w : World) : Prop :=
  rtc (client_step allow_copy) init_world w.

(** No two registries hold the same map. *)
Definition unaliased (w : World) : Prop :=
  forall l1 l2 r1 r2 m, regs w !! l1 = Some r1 -> regs w !! l2 = Some r2 ->
    typeMapping r1 = Some m -> typeMapping r2 = Some m -> l1 = l2.

(** ** Preservation lemmas *)

Lemma alloc_registry_spec r w :
  w ⊢ alloc_registry r ⇓ next w
    ⊣ mkWorld (<[next w := r]> (regs w)) (gomaps w) (S (next w)) (DefaultRegistry w).
Proof. reflexivity. Qed.

Lemma alloc_registry_wf r w :
  wf w -> (forall m, typeMapping r = Some m -> is_Some (gomaps w !! m)) ->
  wf (mkWorld (<[next w := r]> (regs w)) (gomaps w) (S (next w)) (DefaultRegistry w)).
Proof.
  intros Hwf Hr. split; simpl.
  - apply below_insert_fresh, Hwf.
  - apply (below_mono _ (next w)); [apply Hwf | lia].
  - intros l r' m Hl Hm. rewrite lookup_insert in Hl. case_decide; simplify_eq; [by apply Hr|].
    by eapply (wf_reg_maps _ Hwf).
  - intros l Hd. rewrite lookup_insert. case_decide; [by eexists|]. by apply (wf_default _ Hwf).
Qed.

Lemma RegisterIntoWithKey_wf T p k w w' :
  wf w -> (w ⊢ RegisterIntoWithKey T p k ⇓ tt ⊣ w') -> wf w'.
Proof.
  intros Hwf Hreg. rewrite RegisterIntoWithKey_spec in Hreg.
  destruct (map_of w p) as [[m|]|]; try discriminate.
  destruct (gomaps w !! m) as [tbl|] eqn:Hm; [|discriminate]. injection Hreg as <-.
  split; simpl.
  - apply Hwf.
  - apply below_insert_old; [apply Hwf | by eexists].
  - intros l r m' Hl Hm'. rewrite lookup_insert. case_decide; [by eexists|].
    by eapply (wf_reg_maps _ Hwf).
  - apply Hwf.
Qed.

Lemma copy_registry_spec w l r :
  regs w !! l = Some r ->
  w ⊢ copy_registry (Some l) ⇓ Some (next w)
    ⊣ mkWorld (<[next w := r]> (regs w)) (gomaps w) (S (next w)) (DefaultRegistry w).
Proof.
  intros Hl. unfold copy_registry.
  rewrite (go_bind_Ok _ _ _ _ _ (load_registry_ok _ _ _ Hl)). reflexivity.
Qed.

Lemma copy_registry_inv w p q w' :
  (w ⊢ copy_registry p ⇓ q ⊣ w') ->
  exists l r, p = Some l /\ regs w !! l = Some r /\ q = Some (next w) /\
    w' = mkWorld (<[next w := r]> (regs w)) (gomaps w) (S (next w)) (DefaultRegistry w).
Proof.
  intros Hc. destruct p as [l|]; [|discriminate].
  destruct (regs w !! l) as [r|] eqn:Hl.
  - rewrite (copy_registry_spec _ _ _ Hl) in Hc. injection Hc as <- <-. eauto 8.
  - unfold copy_registry in Hc.
    by rewrite (go_bind_Panic _ _ _ _ _ (map_of_None w (Some l) ltac:(simpl; by rewrite Hl))) in Hc.
Qed.

Lemma new_Registry_inv w q w' :
  (w ⊢ new_Registry ⇓ q ⊣ w') ->
  q = Some (next w) /\
  w' = mkWorld (<[next w := mkRegistry None]> (regs w)) (gomaps w) (S (next w)) (DefaultRegistry w).
Proof.
  unfold new_Registry. rewrite (go_bind_Ok _ _ _ _ _ (alloc_registry_spec _ w)).
  intros [= <- <-]. done.
Qed.

Lemma client_step_wf b w w' : wf w -> client_step b w w' -> wf w'.
Proof.
  intros Hwf Hs. destruct Hs as [w p w' Hn|w p w' Hn|T p k w w' Hr|p w Hp|p q w w' _ Hc].
  - rewrite NewRegistry_spec in Hn. injection Hn as <- <-. by apply NewRegistry_wf.
  - destruct (new_Registry_inv _ _ _ Hn) as [_ ->]. by apply alloc_registry_wf.
  - by eapply RegisterIntoWithKey_wf.
  - destruct Hwf as [H1 H2 H3 H4]. split; try assumption.
    intros l Hl. simpl in Hl. subst p. exact Hp.
  - destruct (copy_registry_inv _ _ _ _ Hc) as (l & r & -> & Hl & _ & ->).
    apply alloc_registry_wf; [done|].
    intros m Hm. by eapply (wf_reg_maps _ Hwf).
Qed.

Lemma rtc_client_step_wf b w w' : wf w -> rtc (client_step b) w w' -> wf w'.
Proof. intros Hwf Hr. induction Hr; eauto using client_step_wf. Qed.

Lemma regs_of_map_allocated w l r m :
  wf w -> regs w !! l = Some r -> typeMapping r = Some m -> m < next w.
Proof. intros Hwf Hl Hm. apply (wf_maps _ Hwf), (wf_reg_maps _ Hwf l r m Hl Hm). Qed.

Lemma client_step_unaliased w w' :
  wf w -> unaliased w -> client_step false w w' -> unaliased w'.
Proof.
  intros Hwf Hu Hs. destruct Hs as [w p w' Hn|w p w' Hn|T p k w w' Hr|p w Hp|p q w w' Hf _];
    [| | | |discriminate].
  - rewrite NewRegistry_spec in Hn. injection Hn as <- <-.
    intros l1 l2 r1 r2 m H1 H2 Hm1 Hm2; simpl in *.
    rewrite lookup_insert in H1, H2.
    do 2 case_decide; simplify_eq/=; try done;
      match goal with
      | H : regs w !! _ = Some ?r, Hm : typeMapping ?r = Some _ |- _ =>
          pose proof (regs_of_map_allocated _ _ _ _ Hwf H Hm); lia
      end || eauto.
  - destruct (new_Registry_inv _ _ _ Hn) as [_ ->].
    intros l1 l2 r1 r2 m H1 H2 Hm1 Hm2; simpl in *.
    rewrite lookup_insert in H1, H2. do 2 case_decide; simplify_eq/=; eauto.
  - rewrite RegisterIntoWithKey_spec in Hr.
    destruct (map_of w p) as [[m|]|]; try discriminate.
    destruct (gomaps w !! m); [|discriminate]. by injection Hr as <-.
  - exact Hu.
Qed.

Lemma rtc_client_step_unaliased w w' :
  wf w -> unaliased w -> rtc (client_step false) w w' -> wf w' /\ unaliased w'.
Proof.
  intros Hwf Hu Hr. induction Hr as [|w w1 w2 Hs _ IH]; [done|].
  apply IH; [by eapply client_step_wf | by eapply client_step_unaliased].
Qed.

Lemma unaliased_init : unaliased init_world.
Proof.
  intros l1 l2 r1 r2 m H1 H2 _ _.
  assert (E : regs init_world = {[1 := mkRegistry (Some 0)]}) by reflexivity.
  rewrite E in H1, H2.
  apply lookup_singleton_Some in H1 as [<- _]. apply lookup_singleton_Some in H2 as [<- _].
  done.
Qed.

(** Allocating a registry struct changes no entry of an allocated registry. *)
Lemma entry_of_alloc_registry w r l k :
  l <> next w ->
  entry_of (mkWorld (<[next w := r]> (regs w)) (gomaps w) (S (next w)) (DefaultRegistry w))
           (Some l) k = entry_of w (Some l) k.
Proof. intros Hl. unfold entry_of, map_of. simpl. by rewrite lookup_insert_ne by congruence. Qed.

Lemma entry_of_allocated w p k e :
  wf w -> entry_of w p k = Some e -> exists l, p = Some l /\ l < next w.
Proof.
  intros Hwf He. unfold entry_of in He.
  destruct (map_of w p) as [om|] eqn:Hp; [|discriminate].
  destruct (map_of_Some _ _ _ Hp) as (l & -> & Hl). exists l. split; [done|].
  apply (wf_regs _ Hwf). by eexists.
Qed.

(** One step keeps every present entry present (possibly replaced). *)
Lemma client_step_entry_persists b w w' p k f :
  wf w -> client_step b w w' -> entry_of w p k = Some (Some f) ->
  exists f', entry_of w' p k = Some (Some f').
Proof.
  intros Hwf Hs He. destruct (entry_of_allocated _ _ _ _ Hwf He) as (l & -> & Hl).
  destruct Hs as [w p w' Hn|w p w' Hn|T p k' w w' Hr|p w Hp|p q w w' _ Hc].
  - rewrite NewRegistry_spec in Hn. injection Hn as <- <-.
    rewrite (proj2 (NewRegistry_others w (Some l) k Hwf ltac:(intros [= ?]; lia))). eauto.
  - destruct (new_Registry_inv _ _ _ Hn) as [_ ->]. rewrite entry_of_alloc_registry by lia. eauto.
  - rewrite RegisterIntoWithKey_spec in Hr.
    destruct (map_of w p) as [[m|]|]; try discriminate.
    destruct (gomaps w !! m) as [tbl|] eqn:Hm; [|discriminate]. injection Hr as <-.
    rewrite (entry_of_register _ _ _ _ _ _ _ Hm). case_decide; eauto.
  - exists f. exact He.
  - destruct (copy_registry_inv _ _ _ _ Hc) as (l' & r & -> & Hl' & _ & ->).
    rewrite entry_of_alloc_registry by lia. eauto.
Qed.

(** Over any number of steps, [Knows] stays [true] once it is. *)
Lemma rtc_knows_persists b w w' p k :
  wf w -> rtc (client_step b) w w' ->
  (w ⊢ KnowsTypeKeyIn p k ⇓ true ⊣ w) -> (w' ⊢ KnowsTypeKeyIn p k ⇓ true ⊣ w').
Proof.
  intros Hwf Hr Hk. rewrite KnowsTypeKeyIn_spec in Hk |- *.
  destruct (entry_of w p k) as [[f|]|] eqn:He; try discriminate.
  clear Hk. revert f He. induction Hr as [w|w w1 w2 Hs _ IH]; intros f He.
  - by rewrite He.
  - destruct (client_step_entry_persists _ _ _ _ _ _ Hwf Hs He) as [f' Hf'].
    exact (IH (client_step_wf _ _ _ Hwf Hs) f' Hf').
Qed.

(** A program can always allocate a registry with [NewRegistry], make it
    the default and register into it. *)
Lemma new_default_register b w T k :
  exists w', rtc (client_step b) w w' /\
    entry_of w' (DefaultRegistry w') k = Some (Some (HydrateClosure T)).
Proof.
  set (w1 := final_state (NewRegistry w)). set (p1 := Some (S (next w))).
  set (w2 := set_DefaultRegistry p1 w1).
  assert (Ht : table_of w2 p1 = Some ∅).
  { unfold table_of, map_of, w2, w1, p1. simpl. rewrite lookup_insert_eq. simpl.
    by rewrite lookup_insert_eq. }
  destruct (RegisterIntoWithKey_effect T p1 k w2 ∅ Ht) as (w3 & Hreg & Hd & _ & _ & He).
  exists w3. split.
  - apply (rtc_l _ _ w1); [by eapply cs_new|].
    apply (rtc_l _ _ w2).
    { apply cs_set_default. simpl. rewrite lookup_insert_eq. by eexists. }
    apply rtc_once. by eapply cs_register.
  - rewrite He, Hd, decide_True; done.
Qed.

Lemma reachable_wf_aux b w : reachable b w -> wf w.
Proof. intros Hr. exact (rtc_client_step_wf b _ _ wf_init_world Hr). Qed.

(** A memory with one registration of [pkg.Widget] under ["k"] in the default registry. *)
Definition registered_world_inv : World :=
  final_state (RegisterIntoWithKey Widget (Some 1) "k" init_world).

(** A memory whose default registry is a [new(Registry)] with a nil map. *)
Definition nil_default_world : World :=
  let w := final_state (new_Registry init_world) in set_DefaultRegistry (Some (next init_world)) w.

(** ** Theorems *)

(** C8 (isolation of registries).  In a memory reached without copying
    [Registry] values, a registration through one pointer changes no
    entry seen through any other pointer: no two registries share a map. *)
Theorem reachable_register_isolated w T p q k w' :
  reachable false w -> p <> q -> (w ⊢ RegisterIntoWithKey T p k ⇓ tt ⊣ w') ->
  forall k', entry_of w' q k' = entry_of w q k'.
Proof.
  intros Hreach Hpq Hreg k'.
  destruct (rtc_client_step_unaliased _ _ wf_init_world unaliased_init Hreach) as [Hwf Hu].
  rewrite RegisterIntoWithKey_spec in Hreg.
  destruct (map_of w p) as [[m|]|] eqn:Hp; try discriminate.
  destruct (gomaps w !! m) as [tbl|] eqn:Hm; [|discriminate]. injection Hreg as <-.
  rewrite (entry_of_register _ _ _ _ _ _ _ Hm), decide_False; [done|].
  intros [Hq _]. apply Hpq.
  destruct (map_of_Some _ _ _ Hp) as (l1 & -> & Hl1).
  destruct (map_of_Some _ _ _ Hq) as (l2 & -> & Hl2).
  f_equal. exact (Hu l1 l2 _ _ m Hl1 Hl2 eq_refl eq_refl).
Qed.

Lemma reachable_register_isolated_witness :
  reachable false init_world /\ Some 1 <> Some 0 /\
  (init_world ⊢ RegisterIntoWithKey Widget (Some 1) "k" ⇓ tt
     ⊣ final_state (RegisterIntoWithKey Widget (Some 1) "k" init_world)) /\
  entry_of (final_state (RegisterIntoWithKey Widget (Some 1) "k" init_world)) (Some 0) "k" =
  entry_of init_world (Some 0) "k".
Proof.
  split; [apply rtc_refl|]. split; [congruence|]. split; [reflexivity|].
  apply (reachable_register_isolated init_world Widget (Some 1) (Some 0) "k");
    [apply rtc_refl | congruence | reflexivity].
Defined.

(** C16 (copies share the map).  A copy of a [Registry] value holds the
    same map: registering into the copy makes the key known to the
    original registry too.  Isolation holds between registries, not
    between copies of one. *)
Theorem copy_registry_shares_map w p q k T tbl w1 w2 :
  table_of w p = Some tbl -> (w ⊢ copy_registry p ⇓ q ⊣ w1) ->
  (w1 ⊢ RegisterIntoWithKey T q k ⇓ tt ⊣ w2) ->
  w2 ⊢ KnowsTypeKeyIn p k ⇓ true ⊣ w2.
Proof.
  intros Htbl Hc Hreg.
  destruct (table_of_Some _ _ _ Htbl) as (m & Hp & Hm).
  destruct (map_of_Some _ _ _ Hp) as (l & -> & Hl).
  rewrite (copy_registry_spec _ _ _ Hl) in Hc. injection Hc as <- <-.
  set (w1 := mkWorld _ _ _ _) in Hreg.
  assert (Hsame : map_of w1 (Some l) = Some (Some m) /\ map_of w1 (Some (next w)) = Some (Some m)).
  { unfold map_of, w1; simpl. rewrite !lookup_insert, Hl.
    split; case_decide; simplify_eq/=; done. }
  destruct Hsame as [H1 H2].
  assert (Ht : table_of w1 (Some (next w)) = Some tbl) by (by rewrite table_of_map with (m := m)).
  destruct (RegisterIntoWithKey_effect T _ k _ _ Ht) as (w2' & Hr & _ & _ & _ & He).
  rewrite Hr in Hreg. injection Hreg as <-.
  apply (KnowsTypeKeyIn_registered _ _ _ (HydrateClosure T)).
  rewrite He, decide_True; [done|]. split; [congruence|done].
Qed.

Lemma copy_registry_shares_map_witness :
  (init_world ⊢ KnowsTypeKeyIn (Some 1) "pkg.Widget" ⇓ false ⊣ init_world) /\
  (final_state (RegisterIntoWithKey Widget (Some 2) "pkg.Widget"
                  (final_state (copy_registry (Some 1) init_world)))
     ⊢ KnowsTypeKeyIn (Some 1) "pkg.Widget" ⇓ true
     ⊣ final_state (RegisterIntoWithKey Widget (Some 2) "pkg.Widget"
                      (final_state (copy_registry (Some 1) init_world)))).
Proof.
  split; [reflexivity|].
  apply (copy_registry_shares_map init_world (Some 1) (Some 2) "pkg.Widget" Widget ∅
           (final_state (copy_registry (Some 1) init_world)));
    reflexivity.
Defined.

(** C7 (registrations persist).  No step of a program removes a
    registration: once a registry has an entry for a key, it has one in
    every later memory (the last registration's factory), so [Knows]
    never goes back from [true] to [false]. *)
Theorem registrations_persist b w w' p k :
  reachable b w -> rtc (client_step b) w w' ->
  (w ⊢ KnowsTypeKeyIn p k ⇓ true ⊣ w) -> (w' ⊢ KnowsTypeKeyIn p k ⇓ true ⊣ w').
Proof. intros Hreach. apply rtc_knows_persists, (reachable_wf_aux b w Hreach). Qed.

Lemma registrations_persist_witness :
  reachable false registered_world_inv /\
  rtc (client_step false) registered_world_inv (final_state (NewRegistry registered_world_inv)) /\
  (registered_world_inv ⊢ KnowsTypeKeyIn (Some 1) "k" ⇓ true ⊣ registered_world_inv) /\
  (final_state (NewRegistry registered_world_inv)
     ⊢ KnowsTypeKeyIn (Some 1) "k" ⇓ true ⊣ final_state (NewRegistry registered_world_inv)).
Proof.
  assert (H1 : reachable false registered_world_inv)
    by (apply rtc_once; eapply (cs_register _ Widget (Some 1) "k"); reflexivity).
  assert (H2 : rtc (client_step false) registered_world_inv
                 (final_state (NewRegistry registered_world_inv)))
    by (apply rtc_once; eapply cs_new; reflexivity).
  assert (H3 : registered_world_inv ⊢ KnowsTypeKeyIn (Some 1) "k" ⇓ true ⊣ registered_world_inv)
    by reflexivity.
  split; [exact H1|]. split; [exact H2|]. split; [exact H3|].
  exact (registrations_persist _ _ _ _ _ H1 H2 H3).
Defined.

(** C20 (liveness: the default registry can always be made to serve a
    type).  From every memory a program can reach, it can go on to a
    memory whose default registry knows any given key and resolves it at
    any given non-interface type [T] to the zero value of [T] (by
    [NewRegistry], making it the default, and registering [T] into it),
    with every key known before still known: no reachable memory is stuck
    with a default registry that can never serve [T], not even one whose
    map is nil. *)
Theorem default_eventually_resolves b w T k :
  is_interface T = false -> reachable b w ->
  exists w', rtc (client_step b) w w' /\ reachable b w' /\
    (w' ⊢ KnowsTypeKeyIn (DefaultRegistry w') k ⇓ true ⊣ w') /\
    (w' ⊢ ResolveFromWithKey T (DefaultRegistry w') k ⇓ zero_value T ⊣ w') /\
    forall p k', (w ⊢ KnowsTypeKeyIn p k' ⇓ true ⊣ w) -> (w' ⊢ KnowsTypeKeyIn p k' ⇓ true ⊣ w').
Proof.
  intros Hi Hreach. destruct (new_default_register b w T k) as (w' & Hr & He).
  exists w'. split; [done|]. split; [exact (rtc_trans _ _ _ Hreach Hr)|]. split; [|split].
  - exact (KnowsTypeKeyIn_registered _ _ _ _ He).
  - rewrite (ResolveFromWithKey_registered _ _ _ _ T He Hi), Hi. by rewrite decide_True.
  - intros p k'. apply (rtc_knows_persists b w w' p k' (reachable_wf_aux b w Hreach) Hr).
Qed.

Lemma default_eventually_resolves_witness :
  is_interface Widget = false /\ reachable false nil_default_world /\
  exists w', rtc (client_step false) nil_default_world w' /\ reachable false w' /\
    (w' ⊢ KnowsTypeKeyIn (DefaultRegistry w') "k" ⇓ true ⊣ w') /\
    (w' ⊢ ResolveFromWithKey Widget (DefaultRegistry w') "k" ⇓ zero_value Widget ⊣ w') /\
    forall p k', (nil_default_world ⊢ KnowsTypeKeyIn p k' ⇓ true ⊣ nil_default_world) ->
                 (w' ⊢ KnowsTypeKeyIn p k' ⇓ true ⊣ w').
Proof.
  assert (Hi : is_interface Widget = false) by reflexivity.
  assert (H : reachable false nil_default_world).
  { apply (rtc_l _ _ (final_state (new_Registry init_world))); [by eapply cs_new_zero|].
    apply rtc_once. apply cs_set_default. unfold valid_ptr. eexists. vm_compute. reflexivity. }
  split; [exact Hi|]. split; [exact H | exact (default_eventually_resolves false _ Widget "k" Hi H)].
Defined.
