(* ===== verification/Spec.v ===== *)
(** * The contract of a registry and the refinement of the Go model

    [Spec] states what the design document promises of one registry,
    without heaps, pointers or closures: a registry is a finite map from
    type keys to the type registered under each key; registering inserts
    (last write wins), the existence check is membership, and resolving a
    key returns the zero value of the registered type seen at the
    requested type, or fails fatally when the key is unknown or the value
    cannot be seen at that type.

    [abs] reads the abstract registry off a memory of the Go model, and
    [registry_refines] shows that each of the three primitive operations
    of [Registry.go] does what its abstract counterpart does, and that a
    registration changes the abstract registry of no registry that does
    not share the map. *)

From S2P Require Import Prelude GoTypes Registry.

Module Spec.
(** The abstract state of one registry. *)
Abbreviation registry := (gmap string gotype).

(** The outcome of a resolution: a value or a fatal error. *)
Definition get_result : Type := runtime_error + value.

Definition put (T : gotype) (k : string) (R : registry) : registry := <[k := T]> R.

Definition known (k : string) (R : registry) : bool := bool_decide (is_Some (R !! k)).

(** The zero value of the registered type [U], seen as a [T]. *)
Definition get (T : gotype) (k : string) (R : registry) : get_result :=
  match R !! k with
  | None => inl ErrNilDeref
  | Some U =>
      let x := to_any U (zero_value U) in
      match type_assert x T with
      | Some v => inr v
      | None => inl (ErrTypeAssert (TypeOf x) T)
      end
  end.
End Spec.

(** The type captured by a factory closure. *)
Definition factory_type (f : Factory) : gotype :=
  match f with HydrateClosure T => T end.

(** The abstract registry behind the pointer [p]: defined when [p] points
    to a registry with a map. *)
Definition abs (w : World) (p : option nat) : option Spec.registry :=
  (fun tbl : gmap string Factory => factory_type <$> tbl) <$> table_of w p.

Lemma abs_Some w p R :
  abs w p = Some R -> exists tbl, table_of w p = Some tbl /\ R = factory_type <$> tbl.
Proof. unfold abs. destruct (table_of w p); simpl; [intros [= <-]; eauto | discriminate]. Qed.

(** ** The three primitives against the contract *)

Lemma abs_resolve w p R T k :
  abs w p = Some R ->
  ResolveFromWithKey T p k w =
    match Spec.get T k R with inl e => Panic e w | inr v => Ok v w end.
Proof.
  intros (tbl & Htbl & ->)%abs_Some.
  rewrite ResolveFromWithKey_spec, (entry_of_table _ _ _ k Htbl).
  unfold Spec.get. rewrite lookup_fmap.
  destruct (tbl !! k) as [[U]|]; simpl; [|done]. by destruct (type_assert _ _).
Qed.

Lemma abs_knows w p R k :
  abs w p = Some R -> w ⊢ KnowsTypeKeyIn p k ⇓ Spec.known k R ⊣ w.
Proof.
  intros (tbl & Htbl & ->)%abs_Some.
  rewrite KnowsTypeKeyIn_spec, (entry_of_table _ _ _ k Htbl). unfold Spec.known.
  rewrite lookup_fmap. by destruct (tbl !! k).
Qed.

Lemma abs_register w p R T k :
  abs w p = Some R ->
  exists w', (w ⊢ RegisterIntoWithKey T p k ⇓ tt ⊣ w') /\
    DefaultRegistry w' = DefaultRegistry w /\
    forall q, abs w' q =
      if decide (map_of w q = map_of w p) then Some (Spec.put T k R) else abs w q.
Proof.
  intros (tbl & Htbl & ->)%abs_Some.
  destruct (RegisterIntoWithKey_table T p k w tbl Htbl) as (m & Hp & Hm & Hreg).
  eexists. split; [exact Hreg|]. split; [done|]. intros q. unfold abs.
  rewrite (table_of_register _ _ _ _ _ _ Hm), Hp.
  case_decide; simpl; [|done]. by rewrite fmap_insert.
Qed.

(** Registering [T] and resolving the same key at [T] gives the zero [T]
    when [T] is not an interface. *)
Lemma get_put_same T k R :
  is_interface T = false -> Spec.get T k (Spec.put T k R) = inr (zero_value T).
Proof.
  intros Hi. unfold Spec.get, Spec.put. rewrite lookup_insert_eq, to_any_zero, Hi.
  by rewrite type_assert_same.
Qed.

Lemma known_put T k R : Spec.known k (Spec.put T k R) = true.
Proof. unfold Spec.known, Spec.put. rewrite lookup_insert_eq. done. Qed.

(** Registering the same type under the same key twice is registering once. *)
Lemma put_put_same T k R : Spec.put T k (Spec.put T k R) = Spec.put T k R.
Proof. unfold Spec.put. apply insert_insert_eq. Qed.

(** C2 (refinement).  On a registry with a map, [ResolveFromWithKey]
    returns or fails exactly as [Spec.get] on its abstract registry,
    [KnowsTypeKeyIn] returns [Spec.known] without changing the memory, and
    [RegisterIntoWithKey] succeeds with the abstract registry becoming
    [Spec.put] of it, for every registry holding the same map, while
    every other registry keeps its abstract registry. *)
Theorem registry_refines w p R T k :
  abs w p = Some R ->
  result_of (ResolveFromWithKey T p k w) = Spec.get T k R /\
  (w ⊢ KnowsTypeKeyIn p k ⇓ Spec.known k R ⊣ w) /\
  exists w', (w ⊢ RegisterIntoWithKey T p k ⇓ tt ⊣ w') /\
    forall q, abs w' q =
      if decide (map_of w q = map_of w p) then Some (Spec.put T k R) else abs w q.
Proof.
  intros HR. split; [|split].
  - rewrite (abs_resolve _ _ _ _ _ HR). by destruct (Spec.get T k R).
  - exact (abs_knows _ _ _ _ HR).
  - destruct (abs_register _ _ _ T k HR) as (w' & Hreg & _ & Habs). eauto.
Qed.

Lemma registry_refines_witness :
  abs init_world (Some 1) = Some ∅ /\
  result_of (ResolveFromWithKey Widget (Some 1) "pkg.Widget" init_world) =
    Spec.get Widget "pkg.Widget" ∅.
Proof.
  split; [reflexivity|].
  exact (proj1 (registry_refines init_world (Some 1) ∅ Widget "pkg.Widget" eq_refl)).
Defined.
