(* ===== verification/Contract.v ===== *)
(** * The registry contract as an interface between the package and its clients

    [RegistryContract St Ptr] is what the package promises a client that
    holds registries through handles of type [Ptr] in a state [St]: each
    handle with a map shows an abstract registry ([Spec.registry]);
    registering through it succeeds and makes the abstract registry
    [Spec.put] of the old one, keeping the package's default handle; the
    existence check returns [Spec.known] and resolution returns or fails as
    [Spec.get], both without changing the state.

    The client lemmas of the section are proved against the interface
    alone; the instance [go_registry_contract] discharges the laws for the
    Go model of [Registry.go] (the handles are the [*Registry] pointers of
    a [World]), through the refinement lemmas of [Spec].  The model of the
    test, [RegistryTest], reaches the package only through these client
    lemmas. *)

From S2P Require Import Prelude GoTypes Registry Spec.

Class RegistryContract (St Ptr : Type) := {
  rc_view : St -> Ptr -> option Spec.registry;
  rc_default : St -> Ptr;
  rc_register : gotype -> Ptr -> string -> GoM runtime_error St unit;
  rc_knows : Ptr -> string -> GoM runtime_error St bool;
  rc_resolve : gotype -> Ptr -> string -> GoM runtime_error St value;
  rc_register_law T p k s R :
    rc_view s p = Some R ->
    exists s', (s ⊢ rc_register T p k ⇓ tt ⊣ s') /\
      rc_view s' p = Some (Spec.put T k R) /\ rc_default s' = rc_default s;
  rc_knows_law p k s R :
    rc_view s p = Some R -> s ⊢ rc_knows p k ⇓ Spec.known k R ⊣ s;
  rc_resolve_law T p k s R :
    rc_view s p = Some R ->
    rc_resolve T p k s = match Spec.get T k R with inl e => Panic e s | inr v => Ok v s end
}.

Section client.
Context `{RegistryContract St Ptr}.

(** Registering a non-interface type and then checking and resolving its
    key succeeds: the check reports [true] and the resolution returns the
    zero value, in the state left by the registration. *)
Lemma rc_register_roundtrip T p k s R :
  is_interface T = false -> rc_view s p = Some R ->
  exists s', (s ⊢ rc_register T p k ⇓ tt ⊣ s') /\
    (s' ⊢ rc_knows p k ⇓ true ⊣ s') /\
    (s' ⊢ rc_resolve T p k ⇓ zero_value T ⊣ s') /\
    rc_view s' p = Some (Spec.put T k R) /\ rc_default s' = rc_default s.
Proof.
  intros Hi HR. destruct (rc_register_law T p k s R HR) as (s' & Hreg & Hv & Hd).
  exists s'. split; [done|]. split; [|split; [|done]].
  - rewrite <- (known_put T k R). exact (rc_knows_law p k s' _ Hv).
  - rewrite (rc_resolve_law T p k s' _ Hv), get_put_same; done.
Qed.

(** Resolving a key the abstract registry lacks fails with the nil
    dereference, and changes nothing. *)
Lemma rc_resolve_unknown T p k s R :
  rc_view s p = Some R -> R !! k = None -> s ⊢ rc_resolve T p k ↯ ErrNilDeref ⊣ s.
Proof. intros HR Hk. rewrite (rc_resolve_law T p k s R HR). unfold Spec.get. by rewrite Hk. Qed.
End client.

(** The Go model implements the contract. *)
#[export] Program Instance go_registry_contract : RegistryContract World (option nat) := {
  rc_view := abs;
  rc_default := DefaultRegistry;
  rc_register := RegisterIntoWithKey;
  rc_knows := KnowsTypeKeyIn;
  rc_resolve := ResolveFromWithKey
}.
Next Obligation.
  intros T p k w R HR. destruct (abs_register w p R T k HR) as (w' & Hreg & Hd & Habs).
  exists w'. split; [done|]. split; [|done]. rewrite Habs. by rewrite decide_True.
Qed.
Next Obligation. intros p k w R HR. exact (abs_knows w p R k HR). Qed.
Next Obligation. intros T p k w R HR. exact (abs_resolve w p R T k HR). Qed.
