(* ===== verification/Trace.v ===== *)
(** * Client programs as sequences of statements, against independent registries

    A client program, after package initialisation, is a sequence of
    statements ([op]): [r := NewRegistry()], [r := new(Registry)],
    [hydration.DefaultRegistry = r], and calls of the package API in the
    four call shapes of [Registry.go] (derived or explicit key, default
    registry or a variable [r]).  Pointers live in the program's variables
    ([vars]), bound by the allocations, so a program only passes or
    assigns pointers it holds, as in Go.  [run] runs a program in the Go
    model and stops at the first panic, as an unrecovered Go panic does.

    The abstract package [pkg] is what the design promises: a collection
    of registries, each a [Spec.registry] or a registry whose map is nil
    (a [Registry] not made by [NewRegistry]), indexed by address, with
    the address of the default registry and the next free address;
    [spec_run] runs the same program on it, registering into one registry
    and changing no other.  [absp] reads the abstract package off a
    memory.

    [run_refines] shows that from every memory reachable without copying
    [Registry] values, every program has the outcome [spec_run] predicts:
    same answers, same panic, and the memory's abstract package is the
    abstract one.  Registries are independent state. *)

From S2P Require Import Prelude GoTypes Registry RegistryInv Spec.

(** ** Programs *)

(** A program's pointer variables: the [i]-th holds the pointer the
    [i]-th allocation returned; a variable never assigned is nil, the zero
    value of a pointer. *)
Definition vars : Type := list (option nat).

Definition var (vs : vars) (i : nat) : option nat := default None (vs !! i).

(** The registry argument of a call: the package's [DefaultRegistry]
    (the shapes without a registry argument) or a variable. *)
Inductive preg := PDefault | PVar (i : nat).

Definition reg_arg_of (vs : vars) (pr : preg) : reg_arg :=
  match pr with PDefault => DefaultReg | PVar i => ExplicitReg (var vs i) end.

(** One statement of a client program: [r := NewRegistry()],
    [r := new(Registry)], [hydration.DefaultRegistry = r], or a call of
    the package API in one of its call shapes. *)
Inductive op :=
| OpNew
| OpNewZero
| OpSetDefault (i : nat)
| OpRegister (T : gotype) (ka : key_arg) (pr : preg)
| OpKnows (T : gotype) (ka : key_arg) (pr : preg)
| OpResolve (T : gotype) (ka : key_arg) (pr : preg).

(** What a statement returns. *)
Inductive answer := ADone | APtr (p : option nat) | AKnows (b : bool) | AValue (v : value).

(** Statements over a state [S] (the memory, or the abstract package)
    and the program's variables. *)
Section vars.
Context {S : Type}.

Definition on_state {A} (c : GoM runtime_error S A) : GoM runtime_error (S * vars) A :=
  fun sv => outcome_map (fun s => (s, sv.2)) (c sv.1).

Definition with_vars {A} (f : vars -> GoM runtime_error (S * vars) A) :
    GoM runtime_error (S * vars) A :=
  fun sv => f sv.2 sv.

(** [r := c]: the pointer [c] returns goes into a new variable. *)
Definition alloc_var (c : GoM runtime_error S (option nat)) : GoM runtime_error (S * vars) (option nat) :=
  fun sv =>
    match c sv.1 with
    | Ok p s => Ok p (s, sv.2 ++ [p])
    | Panic e s => Panic e (s, sv.2)
    end.

Definition assign_default (set : option nat -> S -> S) (i : nat) : GoM runtime_error (S * vars) unit :=
  fun sv => Ok tt (set (var sv.2 i) sv.1, sv.2).
End vars.

Definition run_op (o : op) : GoM runtime_error (World * vars) answer :=
  match o with
  | OpNew => p ← alloc_var NewRegistry; mret (APtr p)
  | OpNewZero => p ← alloc_var new_Registry; mret (APtr p)
  | OpSetDefault i => assign_default set_DefaultRegistry i;; mret ADone
  | OpRegister T ka pr =>
      with_vars (fun vs => on_state (register_call T ka (reg_arg_of vs pr)));; mret ADone
  | OpKnows T ka pr =>
      b ← with_vars (fun vs => on_state (knows_call T ka (reg_arg_of vs pr))); mret (AKnows b)
  | OpResolve T ka pr =>
      v ← with_vars (fun vs => on_state (resolve_call T ka (reg_arg_of vs pr))); mret (AValue v)
  end.

Definition run (ops : list op) : GoM runtime_error (World * vars) (list answer) := mapM run_op ops.

(** ** The abstract package *)

Record pkg := mkPkg {
  pkg_regs : gmap nat (option Spec.registry);
  pkg_default : option nat;
  pkg_next : nat
}.

Definition pkg_ptr (A : pkg) (ra : reg_arg) : option nat :=
  match ra with DefaultReg => pkg_default A | ExplicitReg p => p end.

Definition SpecM : Type -> Type := GoM runtime_error pkg.

(** Allocation follows the model's addresses: [NewRegistry] allocates
    the map at [n] and the registry at [n + 1]. *)
Definition spec_new : SpecM (option nat) :=
  fun A => let n := pkg_next A in
    Ok (Some (S n)) (mkPkg (<[S n := Some ∅]> (pkg_regs A)) (pkg_default A) (S (S n))).

Definition spec_new_zero : SpecM (option nat) :=
  fun A => let n := pkg_next A in
    Ok (Some n) (mkPkg (<[n := None]> (pkg_regs A)) (pkg_default A) (S n)).

Definition spec_register (T : gotype) (ka : key_arg) (ra : reg_arg) : SpecM unit :=
  fun A =>
    match pkg_ptr A ra with
    | None => Panic ErrNilDeref A
    | Some l =>
        match pkg_regs A !! l with
        | None => Panic ErrNilDeref A
        | Some None => Panic ErrNilMapWrite A
        | Some (Some R) =>
            Ok tt (mkPkg (<[l := Some (Spec.put T (key_of T ka) R)]> (pkg_regs A))
                         (pkg_default A) (pkg_next A))
        end
    end.

Definition spec_knows (T : gotype) (ka : key_arg) (ra : reg_arg) : SpecM bool :=
  fun A =>
    match pkg_ptr A ra ≫= fun l => pkg_regs A !! l with
    | None => Panic ErrNilDeref A
    | Some None => Ok false A
    | Some (Some R) => Ok (Spec.known (key_of T ka) R) A
    end.

Definition spec_resolve (T : gotype) (ka : key_arg) (ra : reg_arg) : SpecM value :=
  fun A =>
    match pkg_ptr A ra ≫= fun l => pkg_regs A !! l with
    | None | Some None => Panic ErrNilDeref A
    | Some (Some R) =>
        match Spec.get T (key_of T ka) R with
        | inl e => Panic e A
        | inr v => Ok v A
        end
    end.

Definition set_pkg_default (p : option nat) (A : pkg) : pkg :=
  mkPkg (pkg_regs A) p (pkg_next A).

Definition spec_op (o : op) : GoM runtime_error (pkg * vars) answer :=
  match o with
  | OpNew => p ← alloc_var spec_new; mret (APtr p)
  | OpNewZero => p ← alloc_var spec_new_zero; mret (APtr p)
  | OpSetDefault i => assign_default set_pkg_default i;; mret ADone
  | OpRegister T ka pr =>
      with_vars (fun vs => on_state (spec_register T ka (reg_arg_of vs pr)));; mret ADone
  | OpKnows T ka pr =>
      b ← with_vars (fun vs => on_state (spec_knows T ka (reg_arg_of vs pr))); mret (AKnows b)
  | OpResolve T ka pr =>
      v ← with_vars (fun vs => on_state (spec_resolve T ka (reg_arg_of vs pr))); mret (AValue v)
  end.

Definition spec_run (ops : list op) : GoM runtime_error (pkg * vars) (list answer) :=
  mapM spec_op ops.

(** The abstract registry of a [Registry] struct: [None] for a nil map. *)
Definition reg_view (w : World) (r : Registry) : option Spec.registry :=
  typeMapping r ≫= fun m => (fun tbl : gmap string Factory => factory_type <$> tbl) <$> gomaps w !! m.

Definition absp (w : World) : pkg := mkPkg (reg_view w <$> regs w) (DefaultRegistry w) (next w).

(** The invariant the simulation keeps: of the memory, and of a program,
    whose variables hold nil or allocated registries. *)
Definition trace_inv (w : World) : Prop := wf w /\ unaliased w.

Definition absv (sv : World * vars) : pkg * vars := (absp sv.1, sv.2).

Definition prog_inv (sv : World * vars) : Prop := trace_inv sv.1 /\ Forall (valid_ptr sv.1) sv.2.

(** ** Lemmas *)

Lemma map_of_at w l : map_of w (Some l) = typeMapping <$> regs w !! l.
Proof. unfold map_of. simpl. by destruct (regs w !! l). Qed.

Lemma reg_of_absp w ra : reg_of w ra = pkg_ptr (absp w) ra.
Proof. by destruct ra. Qed.

Lemma absp_lookup w l : pkg_regs (absp w) !! l = reg_view w <$> regs w !! l.
Proof. apply lookup_fmap. Qed.

(** The three cases of a pointer in a well-formed memory: it cannot be
    dereferenced, its registry's map is nil, or the map holds [tbl]. *)
Lemma map_of_cases w p :
  wf w ->
  (map_of w p = None /\ p ≫= (fun l => pkg_regs (absp w) !! l) = None) \/
  (map_of w p = Some None /\ p ≫= (fun l => pkg_regs (absp w) !! l) = Some None) \/
  (exists l m tbl, p = Some l /\ map_of w p = Some (Some m) /\ gomaps w !! m = Some tbl /\
     pkg_regs (absp w) !! l = Some (Some (factory_type <$> tbl))).
Proof.
  intros Hwf. destruct p as [l|]; [|left; split; reflexivity].
  rewrite map_of_at. simpl. rewrite lookup_fmap.
  destruct (regs w !! l) as [r|] eqn:Hl; [|left; split; reflexivity].
  destruct r as [[m|]]; [|right; left; split; reflexivity]. right; right.
  destruct (wf_reg_maps _ Hwf l _ m Hl eq_refl) as [tbl Ht].
  exists l, m, tbl. rewrite lookup_fmap, Hl. unfold reg_view. simpl. rewrite Ht. done.
Qed.

(** A registration into the map [m] of the registry at [l] changes the
    abstract package at [l] only, when no other registry holds [m]. *)
Lemma absp_register w l m tbl k f :
  unaliased w -> regs w !! l = Some (mkRegistry (Some m)) -> gomaps w !! m = Some tbl ->
  absp (set_gomaps (<[m := <[k := f]> tbl]> (gomaps w)) w) =
    mkPkg (<[l := Some (<[k := factory_type f]> (factory_type <$> tbl))]> (pkg_regs (absp w)))
          (DefaultRegistry w) (next w).
Proof.
  intros Hu Hl Hm. unfold absp. simpl. f_equal. apply map_eq. intros l'.
  rewrite lookup_fmap. destruct (decide (l' = l)) as [->|Hne].
  - rewrite lookup_insert_eq, Hl. unfold reg_view. simpl.
    rewrite lookup_insert_eq. simpl. by rewrite fmap_insert.
  - rewrite lookup_insert_ne, lookup_fmap by congruence.
    destruct (regs w !! l') as [[[m'|]]|] eqn:Hl'; simpl; [|done|done].
    unfold reg_view. simpl. rewrite lookup_insert_ne; [done|].
    intros <-. exact (Hne (Hu l' l _ _ m Hl' Hl eq_refl eq_refl)).
Qed.

(** [NewRegistry] adds an empty registry and changes no other: no
    registry of a well-formed memory holds the fresh map. *)
Lemma absp_NewRegistry w :
  wf w ->
  absp (final_state (NewRegistry w)) =
    mkPkg (<[S (next w) := Some ∅]> (pkg_regs (absp w))) (DefaultRegistry w) (S (S (next w))).
Proof.
  intros Hwf. rewrite NewRegistry_spec. unfold absp. simpl. f_equal.
  rewrite fmap_insert. f_equal.
  - unfold reg_view. simpl. rewrite lookup_insert_eq. simpl. by rewrite fmap_empty.
  - apply map_fmap_ext. intros l [[m|]] Hl; [|done]. unfold reg_view. simpl.
    rewrite lookup_insert_ne; [done|].
    pose proof (wf_maps _ Hwf m (wf_reg_maps _ Hwf l _ m Hl eq_refl)). lia.
Qed.

Lemma absp_new_Registry w :
  absp (final_state (new_Registry w)) =
    mkPkg (<[next w := None]> (pkg_regs (absp w))) (DefaultRegistry w) (S (next w)).
Proof. unfold absp. simpl. by rewrite fmap_insert. Qed.

Lemma abs_of_map w p m tbl :
  map_of w p = Some (Some m) -> gomaps w !! m = Some tbl -> abs w p = Some (factory_type <$> tbl).
Proof. intros Hp Hm. unfold abs. by rewrite (table_of_map _ _ _ Hp), Hm. Qed.

(** A panic that leaves the memory unchanged keeps the invariant and is
    simulated by the same panic. *)
Ltac sim_panic := simpl; split; [reflexivity | done].

(** ** Each call is simulated *)

Section sim.
Implicit Types (T : gotype) (ka : key_arg) (ra : reg_arg).

Lemma sim_new : go_sim absp trace_inv NewRegistry spec_new.
Proof.
  intros w [Hwf Hu]. pose proof (NewRegistry_spec w) as Hn.
  pose proof (absp_NewRegistry w Hwf) as Ha. rewrite Hn in Ha |- *. simpl in Ha |- *.
  rewrite Ha. split; [done|]. split.
  - apply (NewRegistry_wf w Hwf).
  - exact (client_step_unaliased _ _ Hwf Hu (cs_new _ _ _ _ Hn)).
Qed.

Lemma sim_new_zero : go_sim absp trace_inv new_Registry spec_new_zero.
Proof.
  intros w [Hwf Hu]. destruct (new_Registry w) as [p w'|e w'] eqn:Hn.
  - pose proof (absp_new_Registry w) as Ha. rewrite Hn in Ha. simpl in Ha |- *. rewrite Ha.
    destruct (new_Registry_inv _ _ _ Hn) as [-> ->]. split; [done|]. split.
    + apply alloc_registry_wf; [done|]. discriminate.
    + exact (client_step_unaliased _ _ Hwf Hu (cs_new_zero _ _ _ _ Hn)).
  - discriminate.
Qed.

Lemma sim_register T ka ra :
  go_sim absp trace_inv (register_call T ka ra) (spec_register T ka ra).
Proof.
  intros w [Hwf Hu]. rewrite register_call_prim. unfold spec_register. rewrite <- reg_of_absp.
  set (k := key_of T ka).
  destruct (map_of_cases w (reg_of w ra) Hwf) as [[Hm Ha]|[[Hm Ha]|(l & m & tbl & Hp & Hm & Ht & Ha)]].
  - rewrite RegisterIntoWithKey_spec, Hm.
    destruct (reg_of w ra); simpl in Ha |- *; rewrite ?Ha; sim_panic.
  - rewrite RegisterIntoWithKey_spec, Hm.
    destruct (reg_of w ra); simpl in Ha |- *; [rewrite Ha|discriminate]; sim_panic.
  - assert (Hreg : w ⊢ RegisterIntoWithKey T (reg_of w ra) k ⇓ tt
                     ⊣ set_gomaps (<[m := <[k := HydrateClosure T]> tbl]> (gomaps w)) w)
      by (rewrite RegisterIntoWithKey_spec, Hm, Ht; done).
    rewrite Hreg, Hp, Ha. simpl. split.
    + destruct (map_of_Some _ _ _ Hm) as (l' & Hl' & Hr). rewrite Hp in Hl'. injection Hl' as <-.
      by rewrite (absp_register w l m tbl k _ Hu Hr Ht).
    + split; [exact (RegisterIntoWithKey_wf _ _ _ _ _ Hwf Hreg)|].
      exact (client_step_unaliased _ _ Hwf Hu (cs_register _ _ _ _ _ _ Hreg)).
Qed.

Lemma sim_knows T ka ra :
  go_sim absp trace_inv (knows_call T ka ra) (spec_knows T ka ra).
Proof.
  intros w Hinv. pose proof (proj1 Hinv) as Hwf.
  rewrite knows_call_prim. unfold spec_knows. rewrite <- reg_of_absp.
  destruct (map_of_cases w (reg_of w ra) Hwf) as [[Hm Ha]|[[Hm Ha]|(l & m & tbl & Hp & Hm & Ht & Ha)]].
  - rewrite KnowsTypeKeyIn_spec, Ha. unfold entry_of. rewrite Hm. sim_panic.
  - rewrite KnowsTypeKeyIn_spec, Ha. unfold entry_of. rewrite Hm. sim_panic.
  - rewrite (abs_knows _ _ _ _ (abs_of_map _ _ _ _ Hm Ht)), Hp. simpl in Ha |- *. rewrite Ha. sim_panic.
Qed.

Lemma sim_resolve T ka ra :
  go_sim absp trace_inv (resolve_call T ka ra) (spec_resolve T ka ra).
Proof.
  intros w Hinv. pose proof (proj1 Hinv) as Hwf.
  rewrite resolve_call_prim. unfold spec_resolve. rewrite <- reg_of_absp.
  destruct (map_of_cases w (reg_of w ra) Hwf) as [[Hm Ha]|[[Hm Ha]|(l & m & tbl & Hp & Hm & Ht & Ha)]].
  - rewrite ResolveFromWithKey_spec, Ha. unfold entry_of. rewrite Hm. sim_panic.
  - rewrite ResolveFromWithKey_spec, Ha. unfold entry_of. rewrite Hm. sim_panic.
  - rewrite (abs_resolve _ _ _ _ _ (abs_of_map _ _ _ _ Hm Ht)), Hp. simpl in Ha |- *. rewrite Ha.
    destruct (Spec.get _ _ _); sim_panic.
Qed.

End sim.

(** ** Programs are simulated *)

(** The registries of [w] are still allocated in [w']. *)
Definition grows (w w' : World) : Prop :=
  forall l, is_Some (regs w !! l) -> is_Some (regs w' !! l).

Lemma valid_vars_grow w w' vs : grows w w' -> Forall (valid_ptr w) vs -> Forall (valid_ptr w') vs.
Proof. intros Hg Hv. eapply Forall_impl; [exact Hv|]. intros [l|]; simpl; auto. Qed.

Lemma register_call_grows T ka ra w : grows w (final_state (register_call T ka ra w)).
Proof.
  rewrite register_call_prim, RegisterIntoWithKey_spec.
  destruct (map_of w (reg_of w ra)) as [[m|]|]; [destruct (gomaps w !! m)|..]; intros l Hl; exact Hl.
Qed.

Lemma knows_call_grows T ka ra w : grows w (final_state (knows_call T ka ra w)).
Proof.
  rewrite knows_call_prim, KnowsTypeKeyIn_spec. destruct (entry_of _ _ _); intros l Hl; exact Hl.
Qed.

Lemma resolve_call_grows T ka ra w : grows w (final_state (resolve_call T ka ra w)).
Proof.
  rewrite resolve_call_prim, ResolveFromWithKey_spec.
  destruct (entry_of _ _ _) as [[f|]|]; [destruct (type_assert _ _)|..]; intros l Hl; exact Hl.
Qed.

Lemma NewRegistry_grows w : grows w (final_state (NewRegistry w)).
Proof. rewrite NewRegistry_spec. intros l Hl. simpl. by apply lookup_insert_is_Some'; right. Qed.

Lemma new_Registry_grows w : grows w (final_state (new_Registry w)).
Proof. intros l Hl. simpl. by apply lookup_insert_is_Some'; right. Qed.

Lemma NewRegistry_valid w p w' : trace_inv w -> NewRegistry w = Ok p w' -> valid_ptr w' p.
Proof. intros _. rewrite NewRegistry_spec. intros [= <- <-]. simpl. by rewrite lookup_insert_eq. Qed.

Lemma new_Registry_valid w p w' : trace_inv w -> new_Registry w = Ok p w' -> valid_ptr w' p.
Proof. intros _ Hn. destruct (new_Registry_inv _ _ _ Hn) as [-> ->]. simpl. by rewrite lookup_insert_eq. Qed.

Section lift.
Context {A : Type}.

Lemma on_state_sim (c : M A) (d : SpecM A) :
  go_sim absp trace_inv c d -> (forall w, grows w (final_state (c w))) ->
  go_sim absv prog_inv (on_state c) (on_state d).
Proof.
  intros Hc Hg [w vs] [Hi Hv]. destruct (Hc w Hi) as [Ho HI]. specialize (Hg w).
  unfold on_state. simpl. destruct (c w) as [a w'|e w']; simpl in *; rewrite <- Ho; simpl;
    (split; [done | split; [done | exact (valid_vars_grow _ _ _ Hg Hv)]]).
Qed.

Lemma with_vars_sim (f : vars -> GoM runtime_error (World * vars) A)
      (g : vars -> GoM runtime_error (pkg * vars) A) :
  (forall vs, go_sim absv prog_inv (f vs) (g vs)) -> go_sim absv prog_inv (with_vars f) (with_vars g).
Proof. intros H [w vs] Hi. exact (H vs (w, vs) Hi). Qed.
End lift.

Lemma alloc_var_sim (c : M (option nat)) (d : SpecM (option nat)) :
  go_sim absp trace_inv c d -> (forall w, grows w (final_state (c w))) ->
  (forall w p w', trace_inv w -> c w = Ok p w' -> valid_ptr w' p) ->
  go_sim absv prog_inv (alloc_var c) (alloc_var d).
Proof.
  intros Hc Hg Hp [w vs] [Hi Hv]. destruct (Hc w Hi) as [Ho HI]. specialize (Hg w).
  unfold alloc_var. simpl. destruct (c w) as [p w'|e w'] eqn:E; simpl in *; rewrite <- Ho; simpl;
    (split; [done | split; [done|]]).
  - apply Forall_app. split; [exact (valid_vars_grow _ _ _ Hg Hv)|].
    constructor; [exact (Hp w p w' Hi E) | constructor].
  - exact (valid_vars_grow _ _ _ Hg Hv).
Qed.

(** [hydration.DefaultRegistry = r]: a client step, since [r] holds nil
    or an allocated registry. *)
Lemma assign_default_sim i :
  go_sim absv prog_inv (assign_default set_DefaultRegistry i) (assign_default set_pkg_default i).
Proof.
  intros [w vs] [[Hwf Hu] Hv]. simpl. split; [done|].
  assert (Hp : valid_ptr w (var vs i)).
  { unfold var. destruct (vs !! i) as [p|] eqn:E; simpl; [|done].
    exact (Forall_lookup_1 _ _ _ _ Hv E). }
  pose proof (cs_set_default false _ _ Hp) as Hs.
  split; [split; [exact (client_step_wf _ _ _ Hwf Hs) | exact (client_step_unaliased _ _ Hwf Hu Hs)]|].
  exact Hv.
Qed.

Lemma sim_op o : go_sim absv prog_inv (run_op o) (spec_op o).
Proof.
  destruct o as [| |i|T ka pr|T ka pr|T ka pr]; simpl; apply go_sim_bind;
    try (intros; apply go_sim_ret).
  - apply alloc_var_sim; [apply sim_new | apply NewRegistry_grows | apply NewRegistry_valid].
  - apply alloc_var_sim; [apply sim_new_zero | apply new_Registry_grows | apply new_Registry_valid].
  - apply assign_default_sim.
  - apply with_vars_sim. intros vs. apply on_state_sim; [apply sim_register | apply register_call_grows].
  - apply with_vars_sim. intros vs. apply on_state_sim; [apply sim_knows | apply knows_call_grows].
  - apply with_vars_sim. intros vs. apply on_state_sim; [apply sim_resolve | apply resolve_call_grows].
Qed.

Lemma sim_run ops : go_sim absv prog_inv (run ops) (spec_run ops).
Proof. apply go_sim_mapM, sim_op. Qed.

(** The abstract package after initialisation: one registry, empty, at
    address 1, which is the default. *)
Lemma absp_init_world : absp init_world = mkPkg {[1 := Some ∅]} (Some 1) 2.
Proof. reflexivity. Qed.

(** A program: [r := NewRegistry()], register [pkg.Widget] into [r]
    under its derived key, ask the default registry whether it knows
    [pkg.Widget], make [r] the default, ask again and resolve it. *)
Definition widget_program : list op :=
  [OpNew; OpRegister Widget DerivedKey (PVar 0); OpKnows Widget DerivedKey PDefault;
   OpSetDefault 0; OpKnows Widget DerivedKey PDefault; OpResolve Widget DerivedKey PDefault].

Definition widget_answers : list answer :=
  [APtr (Some 3); ADone; AKnows false; ADone; AKnows true; AValue (zero_value Widget)].

Lemma widget_program_spec :
  spec_run widget_program (absp init_world, []) =
    Ok widget_answers (mkPkg {[1 := Some ∅; 3 := Some {["pkg.Widget" := Widget]}]} (Some 3) 4,
                       [Some 3]).
Proof. reflexivity. Qed.

(** ** Theorems *)

(** C22 (refinement of client programs).  From every memory reachable
    from the package initialisation without copying [Registry] values,
    and for program variables holding nil or allocated registries, every
    program (allocations, assignments of [DefaultRegistry] and calls in
    any call shape) has the outcome the abstract package predicts: the
    same answers, or the same panic at the same statement, with the
    memory's abstract package equal to the abstract one afterwards; and
    the memory stays well formed and unaliased.  A registration changes
    the registry it names and no other. *)
Theorem run_refines ops w vs :
  reachable false w -> Forall (valid_ptr w) vs ->
  outcome_map absv (run ops (w, vs)) = spec_run ops (absp w, vs) /\
  prog_inv (final_state (run ops (w, vs))).
Proof.
  intros Hr Hv. apply (sim_run ops (w, vs)). split; [|exact Hv].
  exact (rtc_client_step_unaliased _ _ wf_init_world unaliased_init Hr).
Qed.

Lemma run_refines_witness :
  reachable false init_world /\ Forall (valid_ptr init_world) [] /\
  outcome_map absv (run widget_program (init_world, [])) = spec_run widget_program (absp init_world, []) /\
  prog_inv (final_state (run widget_program (init_world, []))).
Proof.
  assert (H : reachable false init_world) by apply rtc_refl.
  assert (Hv : Forall (valid_ptr init_world) []) by constructor.
  split; [exact H|]. split; [exact Hv | exact (run_refines widget_program init_world [] H Hv)].
Defined.
