(* ===== verification/Concurrency.v ===== *)
(** * Registration from several goroutines, serialised by a lock

    The package has no synchronisation, and the design states that
    registering from several goroutines at once is a data race: Go gives
    such a program no meaning (the runtime may abort it with "concurrent
    map writes").  What the package supports is concurrent use whose calls
    the callers serialise, for instance under a [sync.Mutex]; each call
    then runs atomically, and a run of two goroutines is one of the
    interleavings ([schedule]) of their call sequences.

    [run_calls] runs a sequence of registrations (in any of the four call
    shapes).  [schedule_independent] shows that when the two goroutines
    register under disjoint keys into registries that have a map, every
    schedule ends in the same memory as running the first goroutine and
    then the second; [same_key_schedule_dependent] shows that under a
    shared key the schedule decides which registration survives, for any
    two different non-interface types.

    The generic part, a section over any state and any family of updates
    that commute when their keys differ, is the usual argument that such
    updates may be reordered. *)

From S2P Require Import Prelude GoTypes Registry.

(** ** Schedules *)

(** [schedule l l1 l2]: [l] interleaves [l1] and [l2], keeping the order
    of each. *)
Inductive schedule {A : Type} : list A -> list A -> list A -> Prop :=
| sched_nil : schedule [] [] []
| sched_left a l l1 l2 : schedule l l1 l2 -> schedule (a :: l) (a :: l1) l2
| sched_right a l l1 l2 : schedule l l1 l2 -> schedule (a :: l) l1 (a :: l2).

#[export] Hint Constructors schedule : go_db.

Lemma schedule_Permutation {A} (l l1 l2 : list A) : schedule l l1 l2 -> l ≡ₚ l1 ++ l2.
Proof.
  induction 1 as [|a l l1 l2 _ IH|a l l1 l2 _ IH]; simpl; [done|by rewrite IH|].
  rewrite IH. apply Permutation_middle.
Qed.

(** ** Updates that commute when their keys differ *)

Section commuting.
Context {A S : Type} (upd : A -> S -> S) (key : A -> string).
Hypothesis upd_comm : forall a b s, key a <> key b -> upd a (upd b s) = upd b (upd a s).

Definition apply_all (l : list A) (s : S) : S := foldl (fun s a => upd a s) s l.

Lemma apply_all_app l1 l2 s : apply_all (l1 ++ l2) s = apply_all l2 (apply_all l1 s).
Proof. apply foldl_app. Qed.

(** An update moves past a sequence of updates under other keys. *)
Lemma apply_all_past a l s :
  Forall (fun b => key a <> key b) l -> apply_all l (upd a s) = upd a (apply_all l s).
Proof.
  revert s. induction l as [|b l IH]; intros s Hl; [done|].
  apply Forall_cons in Hl as [Hab Hl]. simpl. rewrite <- (upd_comm a b s Hab). exact (IH _ Hl).
Qed.

(** Every schedule of two sequences under disjoint keys has the effect of
    the first sequence followed by the second. *)
Lemma schedule_apply_all l l1 l2 s :
  schedule l l1 l2 -> (forall a b, a ∈ l1 -> b ∈ l2 -> key a <> key b) ->
  apply_all l s = apply_all (l1 ++ l2) s.
Proof.
  intros Hs. revert s. induction Hs as [|a l l1 l2 _ IH|b l l1 l2 _ IH]; intros s Hk; [done|..].
  - simpl. apply IH. intros a' b' Ha' Hb'. apply Hk; [by right|done].
  - simpl. rewrite IH by (intros a' b' Ha' Hb'; apply Hk; [done|by right]).
    rewrite !apply_all_app. simpl. f_equal. apply apply_all_past.
    apply Forall_forall. intros a' Ha'. apply not_eq_sym, Hk; [done|by left].
Qed.
End commuting.

(** ** Registrations *)

(** A registration call: the type, the key shape and the registry shape. *)
Definition reg_call : Type := gotype * key_arg * reg_arg.

Definition call_key (c : reg_call) : string := key_of c.1.1 c.1.2.

Definition do_register (c : reg_call) : M unit := register_call c.1.1 c.1.2 c.2.

(** One goroutine's calls, one at a time, stopping at a panic. *)
Fixpoint run_calls (cs : list reg_call) : M unit :=
  match cs with
  | [] => mret tt
  | c :: cs => do_register c;; run_calls cs
  end.

Definition reg_step (c : reg_call) (w : World) : World := final_state (do_register c w).

(** The registry a call names has a map. *)
Definition has_map (w : World) (c : reg_call) : Prop := table_of w (reg_of w c.2) <> None.

(** The memory a registration leaves: the registry's map, when there is
    one, with the key set; otherwise (a panic) the memory unchanged. *)
Definition register_upd (om : option (option nat)) (k : string) (f : Factory)
    (G : gmap nat (gmap string Factory)) : gmap nat (gmap string Factory) :=
  match om with Some (Some m) => alter (<[k := f]>) m G | _ => G end.

Lemma RegisterIntoWithKey_final T p k w :
  final_state (RegisterIntoWithKey T p k w) =
    set_gomaps (register_upd (map_of w p) k (HydrateClosure T) (gomaps w)) w.
Proof.
  rewrite RegisterIntoWithKey_spec. destruct (map_of w p) as [[m|]|]; simpl; [|by destruct w..].
  rewrite alter_alt. destruct (gomaps w !! m); [done|]. by destruct w.
Qed.

Lemma register_upd_comm o1 o2 k1 k2 f1 f2 G :
  k1 <> k2 ->
  register_upd o1 k1 f1 (register_upd o2 k2 f2 G) = register_upd o2 k2 f2 (register_upd o1 k1 f1 G).
Proof.
  intros Hk. destruct o1 as [[m1|]|], o2 as [[m2|]|]; simpl; try done.
  destruct (decide (m1 = m2)) as [<-|Hne]; [|by apply alter_alter_ne].
  rewrite !alter_alter_eq. apply alter_ext. intros tbl _. simpl. by apply insert_insert_ne.
Qed.

(** Two registrations under different keys leave the same memory in
    either order, whatever registries they name (the same one, two sharing
    a map, or two with their own maps), panics included. *)
Lemma RegisterIntoWithKey_final_commute T1 p1 k1 T2 p2 k2 w :
  k1 <> k2 ->
  final_state (RegisterIntoWithKey T1 p1 k1 (final_state (RegisterIntoWithKey T2 p2 k2 w))) =
  final_state (RegisterIntoWithKey T2 p2 k2 (final_state (RegisterIntoWithKey T1 p1 k1 w))).
Proof.
  intros Hk. rewrite !RegisterIntoWithKey_final, !map_of_set_gomaps. simpl.
  by rewrite register_upd_comm.
Qed.

Lemma reg_step_comm c1 c2 w :
  call_key c1 <> call_key c2 -> reg_step c1 (reg_step c2 w) = reg_step c2 (reg_step c1 w).
Proof.
  intros Hk. unfold reg_step, do_register. rewrite !register_call_prim, !RegisterIntoWithKey_final.
  rewrite !reg_of_set_gomaps, !map_of_set_gomaps. simpl. by rewrite register_upd_comm.
Qed.

(** Registrations into registries with maps do not panic, and keep the
    maps of all registries. *)
Lemma run_calls_ok cs w : Forall (has_map w) cs -> run_calls cs w = Ok tt (apply_all reg_step cs w).
Proof.
  revert w. induction cs as [|c cs IH]; intros w Hm; [done|].
  apply Forall_cons in Hm as [Hc Hm]. unfold has_map in Hc.
  destruct (table_of w (reg_of w c.2)) as [tbl|] eqn:Ht; [|done].
  destruct (RegisterIntoWithKey_effect c.1.1 _ (key_of c.1.1 c.1.2) w tbl Ht)
    as (w' & Hreg & Hd & _ & Htab & _).
  assert (Hdo : w ⊢ do_register c ⇓ tt ⊣ w') by (unfold do_register; by rewrite register_call_prim).
  simpl. rewrite (go_bind_Ok _ _ _ _ _ Hdo). unfold reg_step at 2. rewrite Hdo. simpl.
  apply IH. eapply Forall_impl; [exact Hm|]. intros c' Hc'. unfold has_map.
  replace (reg_of w' c'.2) with (reg_of w c'.2) by (destruct c'.2; simpl; congruence).
  by apply Htab.
Qed.

(** Two registrations under the same explicit key into the default
    registry, [Ta] then [Tb], followed by [ResolveWithKey[U]] of that key:
    the resolution sees [Tb] only. *)
Lemma register_twice_then_resolve Ta Tb U k w :
  table_of w (DefaultRegistry w) <> None -> is_interface Tb = false -> is_interface U = false ->
  result_of ((run_calls [(Ta, ExplicitKey k, DefaultReg); (Tb, ExplicitKey k, DefaultReg)];;
              ResolveWithKey U k) w) =
    if decide (Tb = U) then inr (zero_value Tb) else inl (ErrTypeAssert (Some Tb) U).
Proof.
  intros Hm HTb HU.
  destruct (table_of w (DefaultRegistry w)) as [tbl|] eqn:Ht; [|done].
  destruct (RegisterIntoWithKey_effect Ta _ k w tbl Ht) as (w1 & H1 & Hd1 & _ & Ht1 & _).
  specialize (Ht1 _ ltac:(by rewrite Ht)). rewrite <- Hd1 in Ht1.
  destruct (table_of w1 (DefaultRegistry w1)) as [tbl1|] eqn:Ht1'; [|done].
  destruct (RegisterIntoWithKey_effect Tb _ k w1 tbl1 Ht1') as (w2 & H2 & Hd2 & _ & _ & He2).
  assert (Hrun : w ⊢ run_calls [(Ta, ExplicitKey k, DefaultReg); (Tb, ExplicitKey k, DefaultReg)]
                   ⇓ tt ⊣ w2).
  { simpl. unfold do_register. simpl.
    rewrite (go_bind_Ok _ _ _ _ _ (eq_trans (register_call_prim Ta (ExplicitKey k) DefaultReg w) H1)).
    rewrite (go_bind_Ok _ _ _ _ _ (eq_trans (register_call_prim Tb (ExplicitKey k) DefaultReg w1) H2)). done. }
  rewrite (go_bind_Ok _ _ _ _ _ Hrun).
  change (ResolveWithKey U k w2) with (resolve_call U (ExplicitKey k) DefaultReg w2).
  rewrite resolve_call_prim. simpl.
  rewrite (ResolveFromWithKey_registered _ _ _ Tb U); [|by rewrite He2, Hd2, decide_True|done].
  rewrite HU. by case_decide.
Qed.

(** Two goroutines of a client program: one registers [pkg.Widget], the
    other [util.Widget], both in the default registry under their derived
    keys. *)
Definition widget_goroutine : list reg_call := [(Widget, DerivedKey, DefaultReg)].
Definition util_goroutine : list reg_call := [(utilWidgetA, DerivedKey, DefaultReg)].

(** ** Theorems *)

(** C23 (schedule independence).  Two goroutines whose registrations are
    serialised by a lock, registering under disjoint keys into registries
    that have a map, reach the same memory under every schedule: the
    memory of running the first goroutine and then the second.  Which
    registries the calls name does not matter (the same one, copies
    sharing a map, or independent ones). *)
Theorem schedule_independent cs cs1 cs2 w :
  schedule cs cs1 cs2 ->
  (forall c1 c2, c1 ∈ cs1 -> c2 ∈ cs2 -> call_key c1 <> call_key c2) ->
  Forall (has_map w) (cs1 ++ cs2) ->
  run_calls cs w = run_calls (cs1 ++ cs2) w.
Proof.
  intros Hs Hk Hm. rewrite !run_calls_ok; [|done|by rewrite (schedule_Permutation _ _ _ Hs)].
  f_equal. exact (schedule_apply_all reg_step call_key reg_step_comm _ _ _ w Hs Hk).
Qed.

Lemma schedule_independent_witness :
  schedule (util_goroutine ++ widget_goroutine) widget_goroutine util_goroutine /\
  (forall c1 c2, c1 ∈ widget_goroutine -> c2 ∈ util_goroutine -> call_key c1 <> call_key c2) /\
  Forall (has_map init_world) (widget_goroutine ++ util_goroutine) /\
  run_calls (util_goroutine ++ widget_goroutine) init_world =
    run_calls (widget_goroutine ++ util_goroutine) init_world.
Proof.
  assert (Hs : schedule (util_goroutine ++ widget_goroutine) widget_goroutine util_goroutine)
    by (apply sched_right, sched_left, sched_nil).
  assert (Hk : forall c1 c2, c1 ∈ widget_goroutine -> c2 ∈ util_goroutine ->
                 call_key c1 <> call_key c2).
  { intros c1 c2 H1 H2. apply list_elem_of_singleton in H1 as ->.
    apply list_elem_of_singleton in H2 as ->. vm_compute. discriminate. }
  assert (Hm : Forall (has_map init_world) (widget_goroutine ++ util_goroutine))
    by (repeat constructor; unfold has_map; vm_compute; discriminate).
  split; [exact Hs|]. split; [exact Hk|]. split; [exact Hm|].
  exact (schedule_independent _ _ _ _ Hs Hk Hm).
Defined.

(** C24 (schedules decide same-key registrations).  When two goroutines
    register two different non-interface types [T1] and [T2] under the
    same key of a default registry that has a map, every call serialised
    by a lock, the schedule decides which registration survives: after the
    schedule that runs [T2]'s registration first, resolving the key as
    [T1] returns the zero [T1]; after the other, it panics with a failed
    type assertion.  The design's guarantee (the last registration wins)
    holds per schedule only. *)
Theorem same_key_schedule_dependent T1 T2 k w :
  is_interface T1 = false -> is_interface T2 = false -> T1 <> T2 ->
  table_of w (DefaultRegistry w) <> None ->
  schedule [(T1, ExplicitKey k, DefaultReg); (T2, ExplicitKey k, DefaultReg)]
           [(T1, ExplicitKey k, DefaultReg)] [(T2, ExplicitKey k, DefaultReg)] /\
  schedule [(T2, ExplicitKey k, DefaultReg); (T1, ExplicitKey k, DefaultReg)]
           [(T1, ExplicitKey k, DefaultReg)] [(T2, ExplicitKey k, DefaultReg)] /\
  result_of ((run_calls [(T2, ExplicitKey k, DefaultReg); (T1, ExplicitKey k, DefaultReg)];;
              ResolveWithKey T1 k) w) = inr (zero_value T1) /\
  result_of ((run_calls [(T1, ExplicitKey k, DefaultReg); (T2, ExplicitKey k, DefaultReg)];;
              ResolveWithKey T1 k) w) = inl (ErrTypeAssert (Some T2) T1).
Proof.
  intros H1 H2 Hne Hm. split; [by repeat constructor|].
  split; [by apply sched_right, sched_left, sched_nil|]. split.
  - rewrite register_twice_then_resolve by done. by rewrite decide_True.
  - rewrite register_twice_then_resolve by done. by rewrite decide_False.
Qed.

Lemma same_key_schedule_dependent_witness :
  is_interface Widget = false /\ is_interface utilWidgetA = false /\ Widget <> utilWidgetA /\
  table_of init_world (DefaultRegistry init_world) <> None /\
  result_of ((run_calls [(Widget, ExplicitKey "k", DefaultReg); (utilWidgetA, ExplicitKey "k", DefaultReg)];;
              ResolveWithKey Widget "k") init_world) = inl (ErrTypeAssert (Some utilWidgetA) Widget).
Proof.
  assert (H1 : is_interface Widget = false) by reflexivity.
  assert (H2 : is_interface utilWidgetA = false) by reflexivity.
  assert (Hne : Widget <> utilWidgetA) by discriminate.
  assert (Hm : table_of init_world (DefaultRegistry init_world) <> None) by discriminate.
  do 4 (split; [assumption|]).
  exact (proj2 (proj2 (proj2 (same_key_schedule_dependent Widget utilWidgetA "k" init_world
                                H1 H2 Hne Hm)))).
Defined.
