(* ===== verification/RegistryTest.v ===== *)
(** * The test of the package, [src/Registry_test.go]

    [TestHydration] runs 64 subtests, one per value of [i] in [0, 1<<6).
    [createTestCase(i)] reads six bits of [i] and chooses, for the
    registration, the existence check and the resolution, whether the key
    is explicit (the literal ["hydration.dummyType"]) and whether the
    registry is explicit (the package variable [DefaultRegistry] passed as
    an argument).  Every subtest registers [dummyType], checks that
    [Knows] reports [true] and that resolving does not panic.  All
    subtests act on the one default registry, one after the other.

    The subtest body is a computation of [GoM]; [does.NotPanic] is a
    [recover] around the resolution.  A panic outside it (in the
    registration or the check) would abort the test binary, and
    propagates out of [TestHydration]. *)

From S2P Require Import Prelude GoTypes Registry Spec Contract.

(** [type dummyType struct{}] in package [hydration]. *)
Definition dummyType : gotype :=
  TNamed "github.com/lukejoshuapark/hydration" "hydration" "dummyType" (TStruct []) [] [].

(** [type testCase struct { ... }] *)
Record testCase := mkTestCase {
  ExplicitTypeKeyWhenRegistering : bool;
  ExplicitRegistryWhenRegistering : bool;
  ExplicitTypeKeyWhenResolving : bool;
  ExplicitRegistryWhenResolving : bool;
  ExplicitTypeKeyWhenChecking : bool;
  ExplicitRegistryWhenChecking : bool
}.

(** [func createTestCase(i int) testCase]: bit [k] of [i] is tested as
    [i&2^k == 2^k]. *)
Definition createTestCase (i : Z) : testCase :=
  mkTestCase (Z.land i 1 =? 1)%Z (Z.land i 2 =? 2)%Z (Z.land i 4 =? 4)%Z
             (Z.land i 8 =? 8)%Z (Z.land i 16 =? 16)%Z (Z.land i 32 =? 32)%Z.

(** [func (t *testCase) register()] *)
Definition register (t : testCase) : M unit :=
  if ExplicitRegistryWhenRegistering t then
    if ExplicitTypeKeyWhenRegistering t then
      d ← go_gets DefaultRegistry; RegisterIntoWithKey dummyType d "hydration.dummyType"
    else
      d ← go_gets DefaultRegistry; RegisterInto dummyType d
  else
    if ExplicitTypeKeyWhenRegistering t then RegisterWithKey dummyType "hydration.dummyType"
    else Register dummyType.

(** [func (t *testCase) check() bool] *)
Definition check (t : testCase) : M bool :=
  if ExplicitRegistryWhenChecking t then
    if ExplicitTypeKeyWhenChecking t then
      d ← go_gets DefaultRegistry; KnowsTypeKeyIn d "hydration.dummyType"
    else
      d ← go_gets DefaultRegistry; KnowsIn dummyType d
  else
    if ExplicitTypeKeyWhenChecking t then KnowsTypeKey "hydration.dummyType"
    else Knows dummyType.

(** [func (t *testCase) resolve() dummyType] *)
Definition resolve (t : testCase) : M value :=
  if ExplicitRegistryWhenResolving t then
    if ExplicitTypeKeyWhenResolving t then
      d ← go_gets DefaultRegistry; ResolveFromWithKey dummyType d "hydration.dummyType"
    else
      d ← go_gets DefaultRegistry; ResolveFrom dummyType d
  else
    if ExplicitTypeKeyWhenResolving t then ResolveWithKey dummyType "hydration.dummyType"
    else Resolve dummyType.

(** The body of a subtest: [c.register()], [exists := c.check()],
    [test.That(t, exists, is.True)] and
    [test.That(t, func() { c.resolve() }, does.NotPanic)].  It returns
    whether both assertions hold. *)
Definition subtest (c : testCase) : M bool :=
  register c;;
  exists_ ← check c;
  r ← go_recover (resolve c);
  mret (exists_ && bool_decide (is_Some (maybe inr r))).

(** [for i := 0; i < 1<<6; i++ { c := createTestCase(i); t.Run(...) }],
    with [fuel] bounding the iterations; the results of the subtests in
    order. *)
Fixpoint test_loop (fuel : nat) (i : Z) : M (list bool) :=
  match fuel with
  | O => mret []
  | S fuel' =>
      if (i <? Z.shiftl 1 6)%Z then
        let c := createTestCase i in
        ok ← subtest c;
        oks ← test_loop fuel' (i + 1)%Z;
        mret (ok :: oks)
      else mret []
  end.

(** [func TestHydration(t *testing.T)]: 64 iterations are enough fuel
    ([test_loop_fuel] shows more fuel changes nothing). *)
Definition TestHydration : M (list bool) := test_loop 64 0.

(** ** Lemmas *)

(** The literal of the test is the derived key of [dummyType]. *)
Lemma DerivedTypeKey_dummyType : DerivedTypeKey dummyType = "hydration.dummyType".
Proof. reflexivity. Qed.

(** Whatever the shape, the three dispatchers act on the default registry
    with the key ["hydration.dummyType"]. *)
Lemma register_prim c w :
  register c w = RegisterIntoWithKey dummyType (DefaultRegistry w) "hydration.dummyType" w.
Proof. destruct c as [[] [] ? ? ? ?]; reflexivity. Qed.

Lemma check_prim c w :
  check c w = KnowsTypeKeyIn (DefaultRegistry w) "hydration.dummyType" w.
Proof. destruct c as [? ? ? ? [] []]; reflexivity. Qed.

Lemma resolve_prim c w :
  resolve c w = ResolveFromWithKey dummyType (DefaultRegistry w) "hydration.dummyType" w.
Proof. destruct c as [? ? [] [] ? ?]; reflexivity. Qed.

(** A subtest passes in any memory whose default registry has a map, and
    leaves in the default registry [dummyType] under its key: the client
    lemma of the contract, at the Go instance. *)
Lemma subtest_passes c w R :
  abs w (DefaultRegistry w) = Some R ->
  exists w', (w ⊢ subtest c ⇓ true ⊣ w') /\
    abs w' (DefaultRegistry w') = Some (Spec.put dummyType "hydration.dummyType" R).
Proof.
  intros HR.
  destruct (@rc_register_roundtrip _ _ go_registry_contract dummyType _
              "hydration.dummyType" w R eq_refl HR) as (w' & Hreg & Hk & Hr & Hv & Hd).
  cbn [rc_register rc_knows rc_resolve rc_view rc_default go_registry_contract] in *.
  rewrite <- Hd in Hk, Hr, Hv. exists w'. split; [|exact Hv].
  unfold subtest. rewrite (go_bind_Ok _ _ _ _ _ (eq_trans (register_prim c w) Hreg)).
  rewrite (go_bind_Ok _ _ _ _ _ (eq_trans (check_prim c w') Hk)).
  rewrite (go_bind_Ok _ _ _ _ _ (go_recover_Ok _ _ _ _ (eq_trans (resolve_prim c w') Hr))).
  done.
Qed.

(** From the [i]-th subtest on, the loop runs [min n (64 - i)] subtests,
    all of them pass, and if it runs any, the default registry ends with
    [dummyType] registered under its key and nothing else changed. *)
Lemma test_loop_passes n i w R :
  (0 <= i)%Z -> abs w (DefaultRegistry w) = Some R ->
  exists w', (w ⊢ test_loop n i ⇓ replicate (Nat.min n (Z.to_nat (64 - i))) true ⊣ w') /\
    abs w' (DefaultRegistry w') =
      Some (if decide (Nat.min n (Z.to_nat (64 - i)) = 0) then R
            else Spec.put dummyType "hydration.dummyType" R).
Proof.
  revert i w R. induction n as [|n IH]; intros i w R Hi HR; [by exists w|].
  cbn [test_loop]. change (Z.shiftl 1 6) with 64%Z. destruct (Z.ltb_spec i 64) as [Hlt|Hge].
  - destruct (subtest_passes (createTestCase i) w R HR) as (w1 & Hs & HR1).
    destruct (IH (i + 1)%Z w1 _ ltac:(lia) HR1) as (w2 & Hl & HR2).
    exists w2. rewrite (go_bind_Ok _ _ _ _ _ Hs), (go_bind_Ok _ _ _ _ _ Hl).
    replace (Z.to_nat (64 - i)) with (S (Z.to_nat (64 - (i + 1)))) by lia.
    split; [done|]. rewrite HR2. case_decide; case_decide; try lia; by rewrite ?put_put_same.
  - exists w. replace (Z.to_nat (64 - i)) with 0 by lia. split; [done|]. by rewrite HR.
Qed.

(** More fuel than the remaining iterations changes nothing. *)
Lemma test_loop_enough_fuel n m i w :
  (Z.to_nat (64 - i) <= n)%nat -> (Z.to_nat (64 - i) <= m)%nat ->
  test_loop n i w = test_loop m i w.
Proof.
  revert m i w. induction n as [|n IH]; intros m i w Hn Hm.
  - destruct m; [done|]. cbn [test_loop]. change (Z.shiftl 1 6) with 64%Z.
    destruct (Z.ltb_spec i 64); [lia|done].
  - destruct m as [|m]; cbn [test_loop]; change (Z.shiftl 1 6) with 64%Z.
    + destruct (Z.ltb_spec i 64); [lia|done].
    + destruct (Z.ltb_spec i 64); [|done].
      apply go_bind_ext. intros ok w'. go_unfold. rewrite (IH m); [done|lia|lia].
Qed.

(** The inverse of [createTestCase] on [0, 64): bit [k] is the [k]-th field. *)
Definition encodeTestCase (c : testCase) : Z :=
  Z.b2z (ExplicitTypeKeyWhenRegistering c) + 2 * Z.b2z (ExplicitRegistryWhenRegistering c)
  + 4 * Z.b2z (ExplicitTypeKeyWhenResolving c) + 8 * Z.b2z (ExplicitRegistryWhenResolving c)
  + 16 * Z.b2z (ExplicitTypeKeyWhenChecking c) + 32 * Z.b2z (ExplicitRegistryWhenChecking c).

Lemma encodeTestCase_range c : (0 <= encodeTestCase c < 64)%Z.
Proof. destruct c as [[] [] [] [] [] []]; vm_compute; split; congruence. Qed.

Lemma encode_createTestCase_small (n : nat) :
  (n < 64)%nat -> encodeTestCase (createTestCase (Z.of_nat n)) = Z.of_nat n.
Proof.
  intros Hn.
  assert (Hall : Forall (fun n : nat => encodeTestCase (createTestCase (Z.of_nat n)) = Z.of_nat n)
                        (seq 0 64)) by (vm_compute; repeat constructor).
  rewrite Forall_forall in Hall. apply Hall, list_elem_of_In, in_seq. lia.
Qed.

(** [i&2^k == 2^k] tests bit [k] of [i] (two's complement, so also for
    negative [int]s). *)
Lemma land_pow2_eqb i k : (0 <= k)%Z -> (Z.land i (2 ^ k) =? 2 ^ k)%Z = Z.testbit i k.
Proof.
  intros Hk. assert (Hpos : (0 < 2 ^ k)%Z) by (apply Z.pow_pos_nonneg; lia).
  destruct (Z.testbit i k) eqn:Ei.
  - replace (Z.land i (2 ^ k)) with (2 ^ k)%Z; [apply Z.eqb_refl|].
    apply Z.bits_inj'; intros n Hn. rewrite Z.land_spec, Z.pow2_bits_eqb by lia.
    destruct (Z.eqb_spec k n); subst; [by rewrite Ei | by rewrite andb_false_r].
  - replace (Z.land i (2 ^ k)) with 0%Z; [apply Z.eqb_neq; lia|].
    apply Z.bits_inj'; intros n Hn. rewrite Z.land_spec, Z.pow2_bits_eqb, Z.bits_0 by lia.
    destruct (Z.eqb_spec k n); subst; [by rewrite Ei | by rewrite andb_false_r].
Qed.

(** ** Theorems *)

(** C6 (the test passes).  From any memory whose default registry has a
    map (the memory after package initialisation is one), [TestHydration]
    runs its 64 subtests without a panic and every one passes: [Knows]
    reports [true] and the resolution does not panic, in every shape. *)
Theorem TestHydration_passes w tbl :
  table_of w (DefaultRegistry w) = Some tbl ->
  exists w', w ⊢ TestHydration ⇓ replicate 64 true ⊣ w'.
Proof.
  intros Htbl. destruct (test_loop_passes 64 0 w (factory_type <$> tbl)) as (w' & H & _);
    [lia | unfold abs; by rewrite Htbl | by exists w'].
Qed.

Lemma TestHydration_passes_witness :
  exists w', init_world ⊢ TestHydration ⇓ replicate 64 true ⊣ w'.
Proof. apply (TestHydration_passes _ ∅). vm_compute. reflexivity. Defined.

(** C17 (the test enumerates every shape).  [createTestCase] is a
    bijection from [0, 64) onto the 64 test cases: each [i] is recovered
    from its case, and each combination of the six choices is the case of
    exactly one [i] in range. *)
Theorem createTestCase_bijective :
  (forall i, (0 <= i < 64)%Z -> encodeTestCase (createTestCase i) = i) /\
  (forall c, (0 <= encodeTestCase c < 64)%Z /\ createTestCase (encodeTestCase c) = c).
Proof.
  split.
  - intros i Hi. rewrite <- (Z2Nat.id i) by lia. apply encode_createTestCase_small. lia.
  - intros c. split; [apply encodeTestCase_range|].
    destruct c as [[] [] [] [] [] []]; reflexivity.
Qed.

Lemma createTestCase_bijective_witness :
  encodeTestCase (createTestCase 37) = 37%Z /\
  createTestCase (encodeTestCase (mkTestCase true false true false false true)) =
    mkTestCase true false true false false true.
Proof.
  split; [apply (proj1 createTestCase_bijective); lia | apply (proj2 createTestCase_bijective)].
Defined.

(** C18 (termination of the loop).  The loop of [TestHydration] stops
    after its 64 iterations: any fuel of at least 64 gives the same run. *)
Theorem test_loop_fuel n w : (64 <= n)%nat -> test_loop n 0 w = TestHydration w.
Proof. intros Hn. apply test_loop_enough_fuel; simpl; lia. Qed.

Lemma test_loop_fuel_witness : (64 <= 100)%nat /\ test_loop 100 0 init_world = TestHydration init_world.
Proof. split; [lia | apply test_loop_fuel; lia]. Defined.

(** C19 (bit masks of [createTestCase]).  On any Go [int] [i], negative
    ones included, [createTestCase(i)] reads exactly the six low bits of
    [i] in two's complement: field [k] is bit [k], and [i] and [i mod 64]
    give the same case, so the loop's bound [1<<6] reaches every case
    and no index beyond it adds one. *)
Theorem createTestCase_low_bits i :
  createTestCase i =
    mkTestCase (Z.testbit i 0) (Z.testbit i 1) (Z.testbit i 2)
               (Z.testbit i 3) (Z.testbit i 4) (Z.testbit i 5) /\
  createTestCase i = createTestCase (i mod 64).
Proof.
  assert (Hc : forall j, createTestCase j =
    mkTestCase (Z.testbit j 0) (Z.testbit j 1) (Z.testbit j 2)
               (Z.testbit j 3) (Z.testbit j 4) (Z.testbit j 5)).
  { intros j. unfold createTestCase.
    rewrite <- !(land_pow2_eqb j) by lia. reflexivity. }
  split; [apply Hc|]. rewrite !Hc.
  change 64%Z with (2 ^ 6)%Z. rewrite !Z.mod_pow2_bits_low by lia. reflexivity.
Qed.

(** C25 (what the test leaves behind).  Run from a memory whose default
    registry has a map with abstract registry [R], [TestHydration] passes
    and leaves the default registry holding exactly [R] with [dummyType]
    registered under ["hydration.dummyType"]: its 64 registrations of the
    same type under the same key amount to one. *)
Theorem TestHydration_registers w R :
  abs w (DefaultRegistry w) = Some R ->
  exists w', (w ⊢ TestHydration ⇓ replicate 64 true ⊣ w') /\
    abs w' (DefaultRegistry w') = Some (Spec.put dummyType "hydration.dummyType" R).
Proof.
  intros HR. destruct (test_loop_passes 64 0 w R ltac:(lia) HR) as (w' & H & Hv).
  exists w'. split; [exact H|]. rewrite Hv. by rewrite decide_False.
Qed.

Lemma TestHydration_registers_witness :
  abs init_world (DefaultRegistry init_world) = Some ∅ /\
  exists w', (init_world ⊢ TestHydration ⇓ replicate 64 true ⊣ w') /\
    abs w' (DefaultRegistry w') = Some (Spec.put dummyType "hydration.dummyType" ∅).
Proof.
  assert (H : abs init_world (DefaultRegistry init_world) = Some ∅) by reflexivity.
  split; [exact H | exact (TestHydration_registers init_world ∅ H)].
Defined.
